(** * Gmail-n-Calendar-Bot: credential lifecycle and availability search

    A shallow embedding of
    - [src/mastra/integrations/googleAuth.ts]: the per-user token store
      ([loadUserTokens], [saveUserTokens]), the client configuration
      ([loadCredentials], [createOAuth2Client]) and the refreshing accessor
      [getAuthenticatedClient];
    - [src/mastra/tools/googleCalendarTools.ts]: the [execute] function of
      [getCalendarAvailabilityTool] and its input schema, and the block of
      [createCalendarEventTool] that builds the start and end of an event;
    - [src/mastra/integrations/telegram.ts]: [truncateString] and the
      routing of an incoming message ([handleMessage] up to the hand-over
      to an agent, [initiateGoogleAuth], [getActiveAgent],
      [getAgentDisplayName]).

    JavaScript objects used as dictionaries are finite maps; the module-level
    variables of googleAuth.ts and the two files it reads and writes form an
    explicit state; object identity (the token mapping is shared between the
    cache variable and the callers that mutate it) is kept by a heap of
    mappings addressed by references.

    Conventions of the embedding:
    - property lookup is on own properties: a user id is a Telegram id, never
      the name of a property of [Object.prototype];
    - every value of the token mapping is a credentials object, and its
      [expiry_date], when present, is a number or [null], as the
      [Credentials] interface says;
    - a [Date] is its time value, an integer number of milliseconds, and the
      strings of calendar events that are present denote dates; every [Date]
      the tools build lies within the range of [Date];
    - a number of a tool's arguments is a rational, and the arithmetic on
      numbers is exact;
    - the process's time zone is any zone in which a later hour of a day is
      not an earlier instant and the next calendar day is later;
    - a string is its sequence of code units, and the texts the bot sends
      are told apart by what they say, not spelled out. *)

From stdpp Require Import gmap strings list fin_maps.
From Equations Require Import Equations.
From Stdlib Require Import ZArith Lia QArith Qround Lqa.
Close Scope Q_scope.

(** ** JavaScript values held by a [Credentials] object *)

Module Js.

(** The fields of google-auth-library's [Credentials] are optional strings
    and numbers that may also be [null]; an own property can hold
    [undefined]. *)
Inductive JsVal : Type :=
| JUndefined
| JNull
| JNum (n : Z)
| JStr (s : string).

#[global] Instance JsVal_eq_dec : EqDecision JsVal.
Proof. solve_decision. Defined.

(** ToBoolean on these values. *)
Definition truthy (v : JsVal) : bool :=
  match v with
  | JUndefined | JNull => false
  | JNum n => negb (n =? 0)%Z
  | JStr s => negb (String.eqb s "")
  end.

(** Property read [o.k] (own properties only): a missing key reads as
    [undefined]. *)
Definition prop (o : gmap string JsVal) (k : string) : JsVal :=
  default JUndefined (o !! k).

(** Object spread [{ ...a, ...b }]: every own key of [b] overrides [a]. *)
Definition spread (a b : gmap string JsVal) : gmap string JsVal := b ∪ a.

(** [JSON.parse (JSON.stringify o)] on one object: properties holding
    [undefined] are not serialised. *)
Definition json_object (o : gmap string JsVal) : gmap string JsVal :=
  filter (λ kv, kv.2 ≠ JUndefined) o.

(** The same on the mapping from user id to credentials. *)
Definition json_roundtrip (m : gmap string (gmap string JsVal))
  : gmap string (gmap string JsVal) :=
  json_object <$> m.

(** A number given to a tool is a rational (every finite double is one).
    [truncate] is ToIntegerOrInfinity on it: the fraction is dropped,
    towards zero. *)
Definition truncate (x : Q) : Z :=
  if Qle_bool 0 x then Qfloor x else Qceiling x.

Lemma truncate_inject_Z (z : Z) : truncate (inject_Z z) = z.
Proof.
  unfold truncate.
  destruct (Qle_bool 0 (inject_Z z)); [apply Qfloor_Z|apply Qceiling_Z].
Qed.

Lemma truncate_le (x y : Q) : (x <= y)%Q → (truncate x <= truncate y)%Z.
Proof.
  intros H. unfold truncate.
  destruct (Qle_bool 0 x) eqn:Hx, (Qle_bool 0 y) eqn:Hy.
  - by apply Qfloor_resp_le.
  - apply Qle_bool_iff in Hx.
    assert (Qle_bool 0 y = true)
      by (apply Qle_bool_iff; by apply (Qle_trans 0 x y)).
    congruence.
  - transitivity 0%Z.
    + apply (Qceiling_resp_le x 0). apply Qlt_le_weak, Qnot_le_lt.
      intros Hle. apply Qle_bool_iff in Hle. congruence.
    + apply (Qfloor_resp_le 0 y). by apply Qle_bool_iff.
  - by apply Qceiling_resp_le.
Qed.

Lemma truncate_nonneg (x : Q) : (0 <= x)%Q → (0 <= truncate x)%Z.
Proof. apply (truncate_le 0 x). Qed.

Lemma truncate_comp (x y : Q) : (x == y)%Q → truncate x = truncate y.
Proof.
  intros H. unfold truncate.
  by rewrite (Qleb_comp 0%Q 0%Q (Qeq_refl 0%Q) x y H), (Qfloor_comp x y H),
    (Qceiling_comp x y H).
Qed.

End Js.

(** ** googleAuth.ts *)

Module GoogleAuth.
Import Js.

(** What a path on disk holds: nothing, something that cannot be read or
    parsed ([readFileSync] or [JSON.parse] throws), or a parsed value. *)
Inductive File (A : Type) : Type :=
| Missing
| Unreadable
| Holds (a : A).
Arguments Missing {A}.
Arguments Unreadable {A}.
Arguments Holds {A} a.

Record ClientInfo : Type := mkClientInfo {
  client_id : string;
  client_secret : string;
  redirect_uris : list string
}.

(** google-credentials.json, in its "installed" or "web" shape. *)
Record CredentialsJson : Type := mkCredentialsJson {
  installed : option ClientInfo;
  web : option ClientInfo
}.

(** The part of an [OAuth2Client] this file sets. *)
Record OAuth2Client : Type := mkOAuth2Client {
  oa_client_id : string;
  oa_client_secret : string;
  oa_redirect_uri : option string;
  oa_credentials : gmap string JsVal
}.

Inductive Path : Type := USER_TOKENS_PATH | CREDENTIALS_PATH.

(** The calls that leave the process: the file system and the network. *)
Inductive Call : Type :=
| ExistsSync (p : Path)
| ReadFileSync (p : Path)
| WriteFileSync (p : Path)
| GetToken
| RefreshAccessToken
| EventsList.

(** Module state and the file system it touches. [heap] holds the token
    mappings that exist as JavaScript objects; [userTokensCache] is a
    reference into it. [write_ok] says whether [fs.writeFileSync] on
    USER_TOKENS_PATH succeeds; [write_tears] says where a failing write
    fails: before the file is opened, which leaves the file alone, or
    after, when opening it for writing has already emptied it. [calls]
    records the outside calls made so far, oldest first. *)
Record State : Type := mkState {
  heap : list (gmap string (gmap string JsVal));
  userTokensCache : nat;
  credentialsCache : option CredentialsJson;
  user_tokens_file : File (gmap string (gmap string JsVal));
  credentials_file : File CredentialsJson;
  write_ok : bool;
  calls : list Call;
  write_tears : bool
}.

Definition set_heap (h : list (gmap string (gmap string JsVal))) (s : State) : State :=
  mkState h (userTokensCache s) (credentialsCache s)
          (user_tokens_file s) (credentials_file s) (write_ok s) (calls s)
          (write_tears s).

Definition set_userTokensCache (l : nat) (s : State) : State :=
  mkState (heap s) l (credentialsCache s)
          (user_tokens_file s) (credentials_file s) (write_ok s) (calls s)
          (write_tears s).

Definition set_credentialsCache (c : option CredentialsJson) (s : State) : State :=
  mkState (heap s) (userTokensCache s) c
          (user_tokens_file s) (credentials_file s) (write_ok s) (calls s)
          (write_tears s).

Definition set_user_tokens_file (f : File (gmap string (gmap string JsVal)))
           (s : State) : State :=
  mkState (heap s) (userTokensCache s) (credentialsCache s)
          f (credentials_file s) (write_ok s) (calls s)
          (write_tears s).

Definition set_calls (c : list Call) (s : State) : State :=
  mkState (heap s) (userTokensCache s) (credentialsCache s)
          (user_tokens_file s) (credentials_file s) (write_ok s) c
          (write_tears s).

(** The object a reference points to. *)
Definition deref (s : State) (l : nat) : gmap string (gmap string JsVal) :=
  default ∅ (heap s !! l).

(** In-place update of the object behind a reference. *)
Definition mutate (l : nat)
           (f : gmap string (gmap string JsVal) → gmap string (gmap string JsVal))
           (s : State) : State :=
  set_heap (<[l := f (deref s l)]> (heap s)) s.

(** A thrown value: [error.message] and, for errors of the Google client,
    [error.response.data.error.message]. *)
Record JsError : Type := mkJsError {
  message : string;
  response_message : option string
}.

Definition Error (msg : string) : JsError := mkJsError msg None.

(** A call either returns or throws; the state changes made before a throw
    stay. *)
Inductive Outcome (A : Type) : Type :=
| Return (a : A)
| Throw (e : JsError).
Arguments Return {A} a.
Arguments Throw {A} e.

Definition M (A : Type) : Type := State → Outcome A * State.

Definition ret {A} (a : A) : M A := λ s, (Return a, s).
Definition throw {A} (e : JsError) : M A := λ s, (Throw e, s).
Definition bind {A B} (m : M A) (k : A → M B) : M B :=
  λ s, match m s with
       | (Return a, s') => k a s'
       | (Throw e, s') => (Throw e, s')
       end.
Definition try_catch {A} (m : M A) (handler : JsError → M A) : M A :=
  λ s, match m s with
       | (Return a, s') => (Return a, s')
       | (Throw e, s') => handler e s'
       end.
Definition get_state : M State := λ s, (Return s, s).
Definition modify (f : State → State) : M unit := λ s, (Return tt, f s).

#[global] Instance M_ret : MRet M := @ret.
#[global] Instance M_bind : MBind M := λ A B k m, bind m k.


Definition call (c : Call) : M unit :=
  modify (λ s, set_calls (calls s ++ [c]) s).

(** [{}] and [JSON.parse]: a new object. *)
Definition new_object (m : gmap string (gmap string JsVal)) : M nat :=
  s ← get_state ;
  modify (set_heap (heap s ++ [m])) ;;
  ret (length (heap s)).

(** Unfold the plumbing in a goal about a run. *)
Ltac run :=
  unfold mbind, mret, M_bind, M_ret, bind, ret, throw, try_catch,
         get_state, modify, call, new_object in *; simpl in *.

(** The [fs] calls of this file. *)
Definition existsSync_credentials : M bool :=
  call (ExistsSync CREDENTIALS_PATH) ;;
  s ← get_state ;
  ret (match credentials_file s with Missing => false | _ => true end).

Definition read_credentials : M CredentialsJson :=
  call (ReadFileSync CREDENTIALS_PATH) ;;
  s ← get_state ;
  match credentials_file s with
  | Holds c => ret c
  | Unreadable => throw (Error "SyntaxError")
  | Missing => throw (Error "ENOENT")
  end.

Definition existsSync_tokens : M bool :=
  call (ExistsSync USER_TOKENS_PATH) ;;
  s ← get_state ;
  ret (match user_tokens_file s with Missing => false | _ => true end).

Definition read_tokens : M (gmap string (gmap string JsVal)) :=
  call (ReadFileSync USER_TOKENS_PATH) ;;
  s ← get_state ;
  match user_tokens_file s with
  | Holds m => ret m
  | Unreadable => throw (Error "SyntaxError")
  | Missing => throw (Error "ENOENT")
  end.

(** [fs.writeFileSync(USER_TOKENS_PATH, JSON.stringify(m, null, 2))]. The
    file is opened with flag 'w', which creates or empties it: a write that
    fails after that leaves a file whose content is not the text of an
    object, and [JSON.parse] throws on it. *)
Definition write_tokens (m : gmap string (gmap string JsVal)) : M unit :=
  call (WriteFileSync USER_TOKENS_PATH) ;;
  s ← get_state ;
  if write_ok s then modify (set_user_tokens_file (Holds (json_roundtrip m)))
  else if write_tears s then
    modify (set_user_tokens_file Unreadable) ;;
    throw (Error "ENOSPC")
  else throw (Error "EACCES").

(** [loadCredentials] (lines 22-35). *)
Definition loadCredentials : M CredentialsJson :=
  s ← get_state ;
  match credentialsCache s with
  | Some c => ret c
  | None =>
      found ← existsSync_credentials ;
      if negb found then throw (Error "Google API credentials not found")
      else
        content ← read_credentials ;
        modify (set_credentialsCache (Some content)) ;;
        ret content
  end.

(** [loadUserTokens] (lines 37-54). The result is a reference: the cached
    object itself on the first two returns, a second new empty object on
    the last two. *)
Definition loadUserTokens : M nat :=
  s ← get_state ;
  if bool_decide (0 < size (deref s (userTokensCache s))) then
    ret (userTokensCache s)
  else
    found ← existsSync_tokens ;
    if (found : bool) then
      try_catch
        (content ← read_tokens ;
         parsed ← new_object content ;
         modify (set_userTokensCache parsed) ;;
         ret parsed)
        (λ _,
          fresh ← new_object ∅ ;
          modify (set_userTokensCache fresh) ;;
          new_object ∅)
    else
      fresh ← new_object ∅ ;
      modify (set_userTokensCache fresh) ;;
      new_object ∅.

(** [saveUserTokens] (lines 56-63): the write error is caught and logged. *)
Definition saveUserTokens (tokens : nat) : M unit :=
  try_catch
    (s ← get_state ;
     write_tokens (deref s tokens) ;;
     modify (set_userTokensCache tokens))
    (λ _, ret tt).

(** [createOAuth2Client] (lines 65-69). Destructuring
    [credentials.installed || credentials.web] throws when both are
    missing. *)
Definition createOAuth2Client : M OAuth2Client :=
  credentials ← loadCredentials ;
  match installed credentials, web credentials with
  | Some c, _ | None, Some c =>
      ret (mkOAuth2Client (client_id c) (client_secret c)
                          (head (redirect_uris c)) ∅)
  | None, None => throw (Error "TypeError")
  end.

Definition setCredentials (c : OAuth2Client) (t : gmap string JsVal) : OAuth2Client :=
  mkOAuth2Client (oa_client_id c) (oa_client_secret c) (oa_redirect_uri c) t.

(** [const expiryBuffer = 5 * 60 * 1000] (line 115). *)
Definition expiryBuffer : Z := 5 * 60 * 1000.

(** The test of line 116,
    [userToken.expiry_date && userToken.expiry_date < Date.now() + expiryBuffer],
    on [expiry_date?: number | null]. *)
Definition near_expiry (userToken : gmap string JsVal) (now : Z) : bool :=
  match userToken !! "expiry_date" with
  | Some (JNum e) => truthy (JNum e) && (e <? now + expiryBuffer)%Z
  | _ => false
  end.

(** What the outside world answers during one call: the clock read by
    [Date.now()] and the authorization server's reply to
    [refreshAccessToken] for the client's credentials ([None]: the call
    throws). *)
Record World : Type := mkWorld {
  now : Z;
  refreshAccessToken : gmap string JsVal → option (gmap string JsVal)
}.

(** [getAuthenticatedClient] (lines 103-137). *)
Definition getAuthenticatedClient (w : World) (userId : string)
  : M (option OAuth2Client) :=
  allTokens ← loadUserTokens ;
  s ← get_state ;
  match deref s allTokens !! userId with
  | None => ret None
  | Some userToken =>
      oAuth2Client ← createOAuth2Client ;
      let oAuth2Client := setCredentials oAuth2Client userToken in
      if near_expiry userToken (now w) then
        call RefreshAccessToken ;;
        match refreshAccessToken w (oa_credentials oAuth2Client) with
        | Some credentials =>
            let updatedTokens := spread userToken credentials in
            modify (mutate allTokens (λ m, <[userId := updatedTokens]> m)) ;;
            saveUserTokens allTokens ;;
            ret (Some (setCredentials oAuth2Client updatedTokens))
        | None =>
            modify (mutate allTokens (λ m, delete userId m)) ;;
            saveUserTokens allTokens ;;
            ret None
        end
      else ret (Some oAuth2Client)
  end.

(** [getCalendarService] (lines 145-149); the service object wraps the
    client. *)
Definition getCalendarService (w : World) (userId : string)
  : M (option OAuth2Client) :=
  auth ← getAuthenticatedClient w userId ;
  match auth with
  | None => ret None
  | Some auth => ret (Some auth)
  end.

(** The store lookup every caller starts with (lines 104-105). *)
Definition lookupUserToken (userId : string) : M (option (gmap string JsVal)) :=
  allTokens ← loadUserTokens ;
  s ← get_state ;
  ret (deref s allTokens !! userId).

(** [exchangeCodeForToken] (lines 79-101); [getToken] is the authorization
    server's reply to the code ([None]: the call throws). *)
Definition exchangeCodeForToken (getToken : option (gmap string JsVal))
           (userId : string) : M bool :=
  try_catch
    (call GetToken ;;
     match getToken with
     | None => throw (Error "invalid_grant")
     | Some tokens =>
         if negb (truthy (prop tokens "access_token"))
            || negb (truthy (prop tokens "refresh_token"))
         then ret false
         else
           allTokens ← loadUserTokens ;
           modify (mutate allTokens (λ m, <[userId := tokens]> m)) ;;
           saveUserTokens allTokens ;;
           ret true
     end)
    (λ _, ret false).

(** The state of a freshly loaded module (lines 19-20) over given files;
    a write that fails does so at the opening of the file. *)
Definition initial (tokens : File (gmap string (gmap string JsVal)))
           (config : File CredentialsJson) (writable : bool) : State :=
  mkState [∅] 0 None tokens config writable [] false.

End GoogleAuth.

(** ** googleCalendarTools.ts: getCalendarAvailabilityTool *)

Module Availability.
Import Js GoogleAuth.
Local Open Scope Z_scope.

(** Instants are the time values of [Date]s: integers, milliseconds since
    the epoch. *)
Record Slot : Type := mkSlot { start : Z; end_ : Z }.

#[global] Instance Slot_eq_dec : EqDecision Slot.
Proof. solve_decision. Defined.

(** An item of [calendar.events.list]: [event.start?.dateTime ||
    event.start?.date] and the same for the end, as instants; [None] when
    the string is missing. *)
Record Event : Type := mkEvent { ev_start : option Z; ev_end : option Z }.

(** The tool's [context]. [startDate] and [endDate] are the instants the
    raw strings denote, [None] for a string [ensureRFC3339] maps to
    [undefined] (empty, or not a date). [duration], in minutes, and the two
    hours are numbers, whole or not; the two hours are optional. *)
Record Context : Type := mkContext {
  startDate : option Z;
  endDate : option Z;
  duration : Q;
  minStartHour : option Q;
  maxEndHour : option Q;
  userId : string
}.

(** [inputSchema] (lines 378-385): [duration] at least 1, both hours
    between 0 and 23 when given; the strings are unconstrained. *)
Definition inputSchema (c : Context) : bool :=
  Qle_bool 1 (duration c)
  && match minStartHour c with
     | Some h => Qle_bool 0 h && Qle_bool h 23
     | None => true
     end
  && match maxEndHour c with
     | Some h => Qle_bool 0 h && Qle_bool h 23
     | None => true
     end.

Definition msPerHour : Z := 60 * 60 * 1000.
Definition msPerDay : Z := 24 * msPerHour.

(** [new Date(value)]: the time value is the number without its fraction. *)
Definition newDate (value : Q) : Z := truncate value.

(** The process's time zone, through the two local-time operations the
    tools use on a [Date] with time value [t]: [atHour t h] is the time
    value after [setHours(h, 0, 0, 0)] for a whole hour [h], the instant at
    which the clocks of the zone show [h] o'clock on the calendar day that
    contains [t]; [nextDate t] is the time value after
    [setDate(getDate() + 1)], the same clock time on the next calendar day.
    Offsets may change with the date (daylight saving); what is asked of a
    zone is that a later hour of a day is not an earlier instant, that the
    day after an hour [h >= 0] of a day lies after every instant of that
    day, and that the next day is later. *)
Record TimeZone : Type := mkTimeZone {
  atHour : Z → Z → Z;
  nextDate : Z → Z;
  atHour_le : ∀ t h h', h <= h' → atHour t h <= atHour t h';
  nextDate_atHour : ∀ t h, 0 <= h → t < nextDate (atHour t h);
  nextDate_later : ∀ t, t < nextDate t
}.

(** A zone with a fixed offset: local clock time is UTC plus [offset]
    milliseconds. *)
Definition fixed_atHour (offset t h : Z) : Z :=
  (t + offset) / msPerDay * msPerDay + h * msPerHour - offset.

Definition fixed_nextDate (t : Z) : Z := t + msPerDay.

Lemma fixed_atHour_le (offset t h h' : Z) :
  h <= h' → fixed_atHour offset t h <= fixed_atHour offset t h'.
Proof. unfold fixed_atHour, msPerHour. lia. Qed.

Lemma fixed_nextDate_atHour (offset t h : Z) :
  0 <= h → t < fixed_nextDate (fixed_atHour offset t h).
Proof.
  unfold fixed_nextDate, fixed_atHour, msPerDay, msPerHour. intros Hh.
  pose proof (Z.mod_pos_bound (t + offset) (24 * (60 * 60 * 1000)) ltac:(lia)).
  pose proof (Z.div_mod (t + offset) (24 * (60 * 60 * 1000)) ltac:(lia)).
  lia.
Qed.

Lemma fixed_nextDate_later (t : Z) : t < fixed_nextDate t.
Proof. unfold fixed_nextDate, msPerDay, msPerHour. lia. Qed.

Definition fixedOffset (offset : Z) : TimeZone :=
  mkTimeZone (fixed_atHour offset) fixed_nextDate
             (fixed_atHour_le offset) (fixed_nextDate_atHour offset)
             fixed_nextDate_later.

Definition utc : TimeZone := fixedOffset 0.

(** A zone whose clocks are set forward by an hour once, at the instant
    [change]: local clock time is UTC plus [before] until then and UTC plus
    [before] and an hour from then on. *)
Section Forward.
Variables (change before : Z).

Definition forward_offset (t : Z) : Z :=
  if t <? change then before else before + msPerHour.

(** The instant at which the clocks show [clock]; a clock time of the hour
    that is skipped is read with the offset before the change, as [Date]
    reads it. *)
Definition forward_instant (clock : Z) : Z :=
  if clock - before <? change then clock - before
  else if change <=? clock - (before + msPerHour) then clock - (before + msPerHour)
  else clock - before.

Definition forward_atHour (t h : Z) : Z :=
  forward_instant ((t + forward_offset t) / msPerDay * msPerDay + h * msPerHour).

Definition forward_nextDate (t : Z) : Z :=
  forward_instant (t + forward_offset t + msPerDay).

Lemma forward_atHour_le (t h h' : Z) :
  h <= h' → forward_atHour t h <= forward_atHour t h'.
Proof.
  unfold forward_atHour, forward_instant, msPerDay, msPerHour in *.
  generalize ((t + forward_offset t) / (24 * (60 * 60 * 1000))). intros d Hh.
  repeat match goal with
         | |- context [?a <? ?b] => destruct (Z.ltb_spec a b)
         | |- context [?a <=? ?b] => destruct (Z.leb_spec a b)
         end; lia.
Qed.

Lemma forward_nextDate_atHour (t h : Z) :
  0 <= h → t < forward_nextDate (forward_atHour t h).
Proof.
  unfold forward_nextDate, forward_atHour. intros Hh.
  assert (t + forward_offset t
          < (t + forward_offset t) / msPerDay * msPerDay + h * msPerHour + msPerDay)
    as Hday.
  { unfold msPerDay, msPerHour.
    pose proof (Z.mod_pos_bound (t + forward_offset t) (24 * (60 * 60 * 1000))
                  ltac:(lia)).
    pose proof (Z.div_mod (t + forward_offset t) (24 * (60 * 60 * 1000))
                  ltac:(lia)).
    lia. }
  revert Hday.
  generalize ((t + forward_offset t) / msPerDay * msPerDay + h * msPerHour).
  intros clock. unfold forward_instant, forward_offset, msPerDay, msPerHour.
  repeat match goal with
         | |- context [?a <? ?b] => destruct (Z.ltb_spec a b)
         | |- context [?a <=? ?b] => destruct (Z.leb_spec a b)
         end; lia.
Qed.

Lemma forward_nextDate_later (t : Z) : t < forward_nextDate t.
Proof.
  unfold forward_nextDate, forward_instant, forward_offset, msPerDay, msPerHour.
  repeat match goal with
         | |- context [?a <? ?b] => destruct (Z.ltb_spec a b)
         | |- context [?a <=? ?b] => destruct (Z.leb_spec a b)
         end; lia.
Qed.
Definition forward : TimeZone :=
  mkTimeZone forward_atHour forward_nextDate
             forward_atHour_le forward_nextDate_atHour forward_nextDate_later.

End Forward.

(** [String.prototype.includes]. *)
Fixpoint includes (s sub : string) : bool :=
  String.prefix sub s
  || match s with
     | EmptyString => false
     | String _ s' => includes s' sub
     end.

Section Search.

Variable tz : TimeZone.

(** [d = new Date(t); d.setHours(h, 0, 0, 0)] for a number [h]: the hour is
    [h] without its fraction. *)
Definition setHours (t : Z) (h : Q) : Z := atHour tz t (truncate h).

Variable endDateTime : Z.
Variables durationMs minStartHour' maxEndHour' : Q.
Variable busyTimes : list Slot.

(** The test of lines 462 and 474. *)
Definition overlapping (currentTime slotEndTime : Z) (busySlot : Slot) : bool :=
  (currentTime <? end_ busySlot) && (slotEndTime >? start busySlot).

(** The [forEach] of lines 472-479. *)
Definition maxBusyEnd (currentTime slotEndTime : Z) : Z :=
  fold_left
    (λ maxBusyEndTime busySlot,
      if overlapping currentTime slotEndTime busySlot then
        if end_ busySlot >? maxBusyEndTime then end_ busySlot
        else maxBusyEndTime
      else maxBusyEndTime)
    busyTimes currentTime.

(** [new Date(currentTime.getTime() + durationMs)] (line 445). *)
Definition slotEnd (currentTime : Z) : Z :=
  newDate (inject_Z currentTime + durationMs).

(** One pass through the [while] of lines 444-482: the loop is left
    ([Exit]: the condition is false, or [break]), or the next pass starts
    with new values of the two loop variables. *)
Inductive Iteration : Type :=
| Exit
| Next (currentTime : Z) (availableSlots : list Slot).

Definition iteration (currentTime : Z) (availableSlots : list Slot) : Iteration :=
  if (currentTime <? endDateTime) && (length availableSlots <? 20)%nat then
    let slotEndTime := slotEnd currentTime in
    if slotEndTime >? endDateTime then Exit
    else
      let currentDayStart := setHours currentTime minStartHour' in
      let currentDayEnd := setHours currentTime maxEndHour' in
      if (currentTime <? currentDayStart) || (slotEndTime >? currentDayEnd) then
        if currentTime <? currentDayStart then
          Next currentDayStart availableSlots
        else
          Next (nextDate tz currentDayStart) availableSlots
      else
        let isOverlapping :=
          existsb (overlapping currentTime slotEndTime) busyTimes in
        if negb isOverlapping then
          Next (currentTime + 15 * 60 * 1000)
               (availableSlots ++ [mkSlot currentTime slotEndTime])
        else
          Next (maxBusyEnd currentTime slotEndTime) availableSlots
  else Exit.

(** The loop run for at most [passes] passes: [None] when it has not been
    left by then. *)
Fixpoint passes_from (passes : nat) (currentTime : Z) (availableSlots : list Slot)
  : option (list Slot) :=
  match passes with
  | O => None
  | S passes' =>
      match iteration currentTime availableSlots with
      | Exit => Some availableSlots
      | Next currentTime' availableSlots' =>
          passes_from passes' currentTime' availableSlots'
      end
  end.

(** Each pass that does not leave the loop moves [currentTime] forward,
    as long as the minimum hour is not negative (the input schema's
    [min(0)]). *)
Hypothesis minStartHour_min : (0 <= minStartHour')%Q.

Lemma setHours_nextDate_after (t : Z) :
  t < nextDate tz (setHours t minStartHour').
Proof. apply nextDate_atHour. by apply truncate_nonneg. Qed.

Lemma maxBusyEnd_from (l : list Slot) (c e acc : Z) :
  acc <= fold_left
    (λ maxBusyEndTime busySlot,
      if overlapping c e busySlot then
        if end_ busySlot >? maxBusyEndTime then end_ busySlot
        else maxBusyEndTime
      else maxBusyEndTime) l acc.
Proof.
  revert acc. induction l as [|b l IH]; intros acc; simpl; [lia|].
  etransitivity; [|apply IH].
  destruct (overlapping c e b); [|lia].
  destruct (Z.gtb_spec (end_ b) acc); lia.
Qed.

Lemma maxBusyEnd_overlapping (l : list Slot) (c e acc : Z) (b : Slot) :
  In b l → overlapping c e b = true →
  end_ b <= fold_left
    (λ maxBusyEndTime busySlot,
      if overlapping c e busySlot then
        if end_ busySlot >? maxBusyEndTime then end_ busySlot
        else maxBusyEndTime
      else maxBusyEndTime) l acc.
Proof.
  revert acc. induction l as [|x l IH]; intros acc Hin Hov; [destruct Hin|].
  destruct Hin as [->|Hin]; simpl.
  - rewrite Hov. etransitivity; [|apply maxBusyEnd_from].
    destruct (Z.gtb_spec (end_ b) acc); lia.
  - apply IH; assumption.
Qed.

Lemma iteration_Next (c c' : Z) (l l' : list Slot) :
  iteration c l = Next c' l' → c < endDateTime ∧ c < c'.
Proof.
  unfold iteration.
  destruct (Z.ltb_spec c endDateTime); simpl; [|discriminate].
  destruct (length l <? 20)%nat; [|discriminate].
  destruct (slotEnd c >? endDateTime); [discriminate|].
  destruct (Z.ltb_spec c (setHours c minStartHour')); simpl.
  { intros [= <- <-]. lia. }
  destruct (slotEnd c >? setHours c maxEndHour').
  { intros [= <- <-]. pose proof (setHours_nextDate_after c). lia. }
  destruct (existsb _ _) eqn:Hex; simpl.
  - intros [= <- <-]. apply existsb_exists in Hex as (b & Hin & Hov).
    pose proof (maxBusyEnd_overlapping busyTimes c (slotEnd c) c b Hin Hov).
    unfold maxBusyEnd. unfold overlapping in Hov at 1.
    apply andb_prop in Hov as [Hlt _]. apply Z.ltb_lt in Hlt. lia.
  - intros [= <- <-]. lia.
Qed.

(** The [while] loop of lines 444-482 from given values of its two
    variables: the value of [availableSlots] when the loop is left. The
    distance from [currentTime] to [endDateTime] shrinks with each pass. *)
Definition inspect {A : Type} (a : A) : {b : A | a = b} := exist _ a eq_refl.

#[local] Instance remaining_wf : WellFounded (λ x y : Z, 0 <= x < y) :=
  Acc_intro_generator 64 (Z.lt_wf 0).
#[local] Opaque remaining_wf.

Equations? search (currentTime : Z) (availableSlots : list Slot) : list Slot
  by wf (Z.max 0 (endDateTime - currentTime)) (λ x y : Z, 0 <= x < y) :=
  search currentTime availableSlots with inspect (iteration currentTime availableSlots) := {
    | exist _ Exit _ => availableSlots
    | exist _ (Next currentTime' availableSlots') H => search currentTime' availableSlots' }.
Proof. apply iteration_Next in H. lia. Qed.

End Search.

(** The list [busyTimes] of lines 428-435. *)
Definition busyTimesOf (events : list Event) : list Slot :=
  omap (λ event,
          match ev_start event, ev_end event with
          | Some startString, Some endString => Some (mkSlot startString endString)
          | _, _ => None
          end) events.

Lemma schema_minStartHour (c : Context) :
  inputSchema c = true → (0 <= default 9 (minStartHour c))%Q.
Proof.
  unfold inputSchema. intros H.
  apply andb_prop in H as [H _]. apply andb_prop in H as [_ H].
  destruct (minStartHour c) as [h|]; simpl; [|done].
  apply andb_prop in H as [H _]. by apply Qle_bool_iff.
Qed.

(** The rethrow of lines 485-491. *)
Definition googleError (e : JsError) : string :=
  match response_message e with
  | Some m => if String.eqb m "" then message e else m
  | None => message e
  end.

Definition rethrow {A : Type} (e : JsError) : M A :=
  if includes (message e) "Authentication required" then throw e
  else throw (Error ("Failed to find available slots: " +:+ googleError e)).

(** [execute] (lines 390-492), on a context that passed [inputSchema]. [tz]
    is the process's time zone, [items] the reply of [calendar.events.list]
    ([response.data.items], or the error it throws). *)
Definition execute (w : World) (tz : TimeZone) (items : Outcome (option (list Event)))
           (context : Context) (valid : inputSchema context = true)
  : M (list Slot) :=
  if String.eqb (userId context) "" then
    throw (Error "Authentication error: User ID is required.")
  else
    match startDate context, endDate context with
    | Some startDate, Some endDate =>
        if endDate <=? startDate then
          throw (Error "End date must be after start date.")
        else
          try_catch
            (calendar ← getCalendarService w (userId context) ;
             match calendar with
             | None =>
                 throw (Error "Google Authentication required. Please use /connect_google.")
             | Some _ =>
                 call EventsList ;;
                 match items with
                 | Throw e => throw e
                 | Return items =>
                     let events := default [] items in
                     let busyTimes := busyTimesOf events in
                     let durationMs := (duration context * 60 * 1000)%Q in
                     let availableSlots :=
                       search tz endDate durationMs
                              (default 9%Q (minStartHour context))
                              (default 17%Q (maxEndHour context))
                              busyTimes (schema_minStartHour context valid)
                              startDate [] in
                     ret (take 10 availableSlots)
                 end
             end)
            rethrow
    | _, _ =>
        throw (Error "Invalid start or end date format provided. Use full ISO 8601 format with timezone.")
    end.


End Availability.

(** ** Concrete stores and requests *)

Module Sample.
Import Js GoogleAuth.
Local Open Scope Z_scope.

Definition config : CredentialsJson :=
  mkCredentialsJson
    (Some (mkClientInfo "client-id" "client-secret" ["http://localhost"])) None.

(** A credential that expired long before [clock]. *)
Definition stale : gmap string JsVal :=
  {[ "access_token" := JStr "old-access";
     "refresh_token" := JStr "refresh-1";
     "expiry_date" := JNum 1000 ]}.

(** A credential good for another hour after [clock]. *)
Definition fresh : gmap string JsVal :=
  {[ "access_token" := JStr "access";
     "refresh_token" := JStr "refresh-1";
     "expiry_date" := JNum 5600000 ]}.

Definition clock : Z := 2000000.

(** The server re-issues an access token and nothing else. *)
Definition reissue : gmap string JsVal := {[ "access_token" := JStr "new-access" ]}.

Definition granting : World := mkWorld clock (λ _, Some reissue).
Definition rejecting : World := mkWorld clock (λ _, None).

(** One user on disk, nothing loaded yet. *)
Definition store (userToken : gmap string JsVal) (writable : bool) : State :=
  initial (Holds {[ "42" := userToken ]}) (Holds config) writable.

Definition client (credentials : gmap string JsVal) : OAuth2Client :=
  mkOAuth2Client "client-id" "client-secret" (Some "http://localhost") credentials.

(** 2023-11-15T00:00:00Z and the hours of that day, in a process running
    on UTC ([Availability.utc]). *)
Definition midnight : Z := 1700006400000.
Definition at_ (h m : Z) : Z := midnight + h * 3600000 + m * 60000.

Definition meetings : list Availability.Event :=
  [ Availability.mkEvent (Some (at_ 10 0)) (Some (at_ 11 0));
    Availability.mkEvent (Some (at_ 13 0)) (Some (at_ 14 0)) ].

(** Half an hour, some time that day, default working hours. *)
Definition request : Availability.Context :=
  Availability.mkContext (Some midnight) (Some (at_ 24 0)) 30%Q None None "42".

Definition half_hour (t : Z) : Availability.Slot :=
  Availability.mkSlot t (t + 30 * 60000).

Definition offered : list Availability.Slot :=
  half_hour <$>
    [ at_ 9 0; at_ 9 15; at_ 9 30; at_ 11 0; at_ 11 15;
      at_ 11 30; at_ 11 45; at_ 12 0; at_ 12 15; at_ 12 30 ].



(** One pass of the search for [request] among [meetings], and the whole
    loop. *)
Definition pass : Z → list Availability.Slot → Availability.Iteration :=
  Availability.iteration Availability.utc (at_ 24 0)
    (Availability.duration request * 60 * 1000)%Q
    (default 9%Q (Availability.minStartHour request))
    (default 17%Q (Availability.maxEndHour request))
    (Availability.busyTimesOf meetings).

Definition loop : Z → list Availability.Slot → list Availability.Slot :=
  Availability.search Availability.utc (at_ 24 0)
    (Availability.duration request * 60 * 1000)%Q
    (default 9%Q (Availability.minStartHour request))
    (default 17%Q (Availability.maxEndHour request))
    (Availability.busyTimesOf meetings)
    (Availability.schema_minStartHour request eq_refl).


(** A store whose cache is loaded while the file cannot be written, and a
    code exchange on it. *)
Definition loaded_readonly : State := (lookupUserToken "42" (store stale false)).2.

Definition exchanged : Outcome bool * State :=
  exchangeCodeForToken (Some fresh) "42" loaded_readonly.

(** A process whose token file cannot be parsed. *)
Definition garbled : State := initial Unreadable (Holds config) true.

(** One meeting over the whole day. *)
Definition day_long : list Availability.Event :=
  [ Availability.mkEvent (Some midnight) (Some (at_ 24 0)) ].



(** The request of [request] with the minimum hour at half past nine. *)
Definition from_half_past_nine : Availability.Context :=
  Availability.mkContext (Some midnight) (Some (at_ 24 0)) 30%Q
    (Some 9.5%Q) None "42".

(** A duration that is not a whole number of milliseconds, and a maximum
    hour that is not a whole hour, asked from five o'clock on. *)
Definition odd_duration : Availability.Context :=
  Availability.mkContext (Some midnight) (Some (at_ 24 0)) 2.00001%Q None None "42".

Definition until_half_past_five : Availability.Context :=
  Availability.mkContext (Some (at_ 17 0)) (Some (at_ 24 0)) 30%Q
    None (Some 17.5%Q) "42".

(** 2023-03-12T00:00:00Z, and a process in New York that spring: five hours
    behind UTC until 2023-03-12T07:00:00Z, four hours behind from then
    on. *)
Definition march_12 : Z := 1678579200000.

Definition new_york : Availability.TimeZone :=
  Availability.forward (march_12 + 7 * 3600000) (- 5 * 3600000).

(** Two users on disk, the file not writable. *)
Definition two_users : State :=
  initial (Holds {[ "42" := stale; "7" := fresh ]}) (Holds config) false.

End Sample.

(** ** googleCalendarTools.ts: the dates of createCalendarEventTool *)

Module CalendarEvents.
Import GoogleAuth Availability.
Local Open Scope Z_scope.

(** [{ date }] or [{ dateTime }] of an event's start or end. A date string
    YYYY-MM-DD is the number of its day, counted from 1970-01-01; a
    date-time string is its instant. *)
Inductive EventTime : Type :=
| OnDate (date : Z)
| AtDateTime (dateTime : Z).

(** [new Date(t).toISOString().split('T')[0]]: the UTC day of an instant. *)
Definition isoDate (t : Z) : Z := t / msPerDay.

(** [new Date("YYYY-MM-DD")]: midnight UTC of that day. *)
Definition dateInstant (date : Z) : Z := date * msPerDay.

Definition invalid_inner : JsError :=
  Error "Invalid start or end date format provided. Use full ISO 8601 format with timezone.".

Definition invalid_outer : JsError :=
  Error "Invalid start or end date format. Use full ISO 8601 format (e.g., YYYY-MM-DDTHH:mm:ssZ).".

(** The first [try] block of [createCalendarEventTool.execute] (lines
    147-169): from [allDay] and the two raw strings to [startObj] and
    [endObj]. A raw string is the instant it denotes, [None] when it is
    empty or not a date ([toISOString] throws a RangeError on it, and
    [ensureRFC3339] maps it to [undefined]). *)
Definition eventTimes (tz : TimeZone) (allDay : bool) (rawStart rawEnd : option Z)
  : Outcome (EventTime * EventTime) :=
  let attempt : Outcome (EventTime * EventTime) :=
    if allDay then
      match rawStart with
      | None => Throw (Error "RangeError: Invalid time value")
      | Some rawStart =>
          let startDate := isoDate rawStart in
          match rawEnd with
          | None => Throw (Error "RangeError: Invalid time value")
          | Some rawEnd =>
              let endDate := isoDate rawEnd in
              if dateInstant endDate <=? dateInstant startDate then
                let tempEndDate := nextDate tz (dateInstant startDate) in
                Return (OnDate startDate, OnDate (isoDate tempEndDate))
              else Return (OnDate startDate, OnDate endDate)
          end
      end
    else
      match rawStart, rawEnd with
      | Some formattedStart, Some formattedEnd =>
          Return (AtDateTime formattedStart, AtDateTime formattedEnd)
      | _, _ => Throw invalid_inner
      end
  in
  match attempt with
  | Return times => Return times
  | Throw _ => Throw invalid_outer
  end.

End CalendarEvents.

(** ** telegram.ts: the routing of an incoming message *)

Module Telegram.
Import Js GoogleAuth.

(** [truncateString] (lines 84-87); a string is its sequence of code units. *)
Definition truncateString (str : string) (maxLength : nat) : string :=
  if (String.length str <=? maxLength)%nat then str
  else String.substring 0 maxLength str +:+ "... [truncated]".

(** The texts the bot sends while routing, by what they say. *)
Inductive Notice : Type :=
| Welcome
| ConnectInstructions
| ConnectUnavailable
| Connected
| ConnectFailed
| GmailActivated
| CalendarActivated
| AssistantActivated
| Help (activeAgent : string)
| ConnectionNeeded.

(** The fields of a [TelegramBot.Message] that are read: [msg.chat.id],
    [msg.text] and [msg.from?.id?.toString()]. *)
Record Message : Type := mkMessage {
  chat : Z;
  text : option string;
  from : option string
}.

(** The module variable [awaitingAuthCodeUsers], the field [userAgents], the
    state of googleAuth.ts, and the messages delivered so far, oldest
    first. *)
Record Bot : Type := mkBot {
  auth : State;
  awaitingAuthCodeUsers : gset Z;
  userAgents : gmap Z string;
  sent : list (Z * Notice)
}.

(** The outside world of the bot: the world of googleAuth.ts, the
    authorization server's reply to a code, and whether Telegram accepts a
    message ([sendMessage] rejects otherwise). *)
Record Net : Type := mkNet {
  world : World;
  getToken : string → option (gmap string JsVal);
  delivers : Z → Notice → bool
}.

Definition B (A : Type) : Type := Bot → Outcome A * Bot.

#[global] Instance B_ret : MRet B := λ A a b, (Return a, b).
#[global] Instance B_bind : MBind B :=
  λ A C k m b, match m b with
               | (Return a, b') => k a b'
               | (Throw e, b') => (Throw e, b')
               end.

Definition catch {A : Type} (m : B A) (handler : JsError → B A) : B A :=
  λ b, match m b with
       | (Return a, b') => (Return a, b')
       | (Throw e, b') => handler e b'
       end.

(** A call into googleAuth.ts. *)
Definition lift {A : Type} (m : M A) : B A :=
  λ b, let '(o, s) := m (auth b) in
       (o, mkBot s (awaitingAuthCodeUsers b) (userAgents b) (sent b)).

Definition sendMessage (n : Net) (chatId : Z) (notice : Notice) : B unit :=
  λ b, if delivers n chatId notice then
         (Return (), mkBot (auth b) (awaitingAuthCodeUsers b) (userAgents b)
                           (sent b ++ [(chatId, notice)]))
       else (Throw (Error "ETELEGRAM"), b).

Definition awaiting_add (chatId : Z) : B unit :=
  λ b, (Return (), mkBot (auth b) ({[chatId]} ∪ awaitingAuthCodeUsers b)
                         (userAgents b) (sent b)).

Definition awaiting_delete (chatId : Z) : B unit :=
  λ b, (Return (), mkBot (auth b) (awaitingAuthCodeUsers b ∖ {[chatId]})
                         (userAgents b) (sent b)).

Definition userAgents_set (chatId : Z) (agentKey : string) : B unit :=
  λ b, (Return (), mkBot (auth b) (awaitingAuthCodeUsers b)
                         (<[chatId := agentKey]> (userAgents b)) (sent b)).

Definition get_bot : B Bot := λ b, (Return b, b).

(** [this.userAgents.get(chatId) || "gmailAgent"]. *)
Definition currentAgentKey (b : Bot) (chatId : Z) : string :=
  match userAgents b !! chatId with
  | Some k => if String.eqb k "" then "gmailAgent" else k
  | None => "gmailAgent"
  end.

(** [getActiveAgent] (lines 234-246), the agent named by its key. *)
Definition getActiveAgent (b : Bot) (chatId : Z) : string :=
  let agentKey := currentAgentKey b chatId in
  if String.eqb agentKey "googleCalendarAgent" then "googleCalendarAgent"
  else if String.eqb agentKey "emailCalendarAgent" then "emailCalendarAgent"
  else "gmailAgent".

(** [getAgentDisplayName] (lines 248-259). *)
Definition getAgentDisplayName (agentKey : string) : string :=
  if String.eqb agentKey "googleCalendarAgent" then "Calendar Manager"
  else if String.eqb agentKey "emailCalendarAgent" then "Combined Assistant"
  else if String.eqb agentKey "gmailAgent" then "Gmail Manager"
  else "Unknown".

(** [initiateGoogleAuth] (lines 262-285). *)
Definition initiateGoogleAuth (n : Net) (chatId : Z) : B unit :=
  catch
    (_ ← lift createOAuth2Client ;
     sendMessage n chatId ConnectInstructions ;;
     awaiting_add chatId)
    (λ _, sendMessage n chatId ConnectUnavailable).

(** How [handleMessage] ends, up to the hand-over to the agent. *)
Inductive Routed : Type :=
| Ignored
| CodeHandled (success : bool)
| CommandHandled
| NoText
| NotConnected
| ToAgent (agent : string) (text : string).

(** The [switch] of lines 325-389 on a text that starts with a slash:
    [Some] when a case returned, [None] when control falls out of the
    [switch]. *)
Definition command (n : Net) (chatId : Z) (text : string) : B (option Routed) :=
  if String.prefix "/" text then
    if String.eqb text "/start" then
      sendMessage n chatId Welcome ;;
      userAgents_set chatId "gmailAgent" ;;
      mret (Some CommandHandled)
    else if String.eqb text "/connect_google" then
      initiateGoogleAuth n chatId ;;
      mret (Some CommandHandled)
    else if String.eqb text "/gmail" then
      userAgents_set chatId "gmailAgent" ;;
      sendMessage n chatId GmailActivated ;;
      mret (Some CommandHandled)
    else if String.eqb text "/calendar" then
      userAgents_set chatId "googleCalendarAgent" ;;
      sendMessage n chatId CalendarActivated ;;
      mret (Some CommandHandled)
    else if String.eqb text "/assistant" then
      userAgents_set chatId "emailCalendarAgent" ;;
      sendMessage n chatId AssistantActivated ;;
      mret (Some CommandHandled)
    else if String.eqb text "/help" then
      b ← get_bot ;
      sendMessage n chatId (Help (getAgentDisplayName (currentAgentKey b chatId))) ;;
      mret (Some CommandHandled)
    else mret None
  else mret None.

(** [requiresGoogle] (line 397). *)
Definition requiresGoogle (agentKey : string) : bool :=
  String.eqb agentKey "gmailAgent"
  || String.eqb agentKey "googleCalendarAgent"
  || String.eqb agentKey "emailCalendarAgent".

(** [handleMessage] (lines 288-406), up to the point where the text goes to
    the active agent. *)
Definition handleMessage (n : Net) (msg : Message) : B Routed :=
  let chatId := chat msg in
  match from msg with
  | None => mret Ignored
  | Some userId =>
      if String.eqb userId "" then mret Ignored
      else
        b ← get_bot ;
        let text := default "" (text msg) in
        if bool_decide (chatId ∈ awaitingAuthCodeUsers b)
           && negb (String.eqb text "") && (20 <? String.length text)%nat
        then
          awaiting_delete chatId ;;
          _ ← lift createOAuth2Client ;
          success ← lift (exchangeCodeForToken (getToken n text) userId) ;
          (if (success : bool) then sendMessage n chatId Connected
           else sendMessage n chatId ConnectFailed) ;;
          mret (CodeHandled success)
        else
          handled ← command n chatId text ;
          match handled with
          | Some routed => mret routed
          | None =>
              if String.eqb text "" then mret NoText
              else
                if requiresGoogle (currentAgentKey b chatId) then
                  client ← lift (getAuthenticatedClient (world n) userId) ;
                  match client with
                  | None =>
                      sendMessage n chatId ConnectionNeeded ;;
                      mret NotConnected
                  | Some _ => mret (ToAgent (getActiveAgent b chatId) text)
                  end
                else mret (ToAgent (getActiveAgent b chatId) text)
          end
  end.

(** A bot that has just been constructed. *)
Definition started (s : State) : Bot := mkBot s ∅ ∅ [].

End Telegram.

(** ** Concrete conversations *)

Module Chat.
Import Js GoogleAuth Telegram.

(** Telegram accepts every message; the authorization server knows no
    code. *)
Definition net : Net := mkNet Sample.granting (λ _, None) (λ _ _, true).

Definition question : Message :=
  mkMessage 5 (Some "what is on today?") (Some "42").

Definition to_calendar : Message := mkMessage 5 (Some "/calendar") (Some "42").

Definition pasted : Message :=
  mkMessage 5 (Some "4/0AbCdEfGhIjKlMnOpQrStUvWxYz") (Some "42").

(** An authorization server that answers every code with [Sample.fresh]. *)
Definition server : Net := mkNet Sample.granting (λ _, Some Sample.fresh) (λ _ _, true).

(** A bot that waits for the code of chat 5. *)
Definition awaited : Bot := mkBot (Sample.store Sample.stale true) {[ 5%Z ]} ∅ [].

End Chat.

(** * Properties of the credential lifecycle *)

Module AuthProofs.
Import Js GoogleAuth.

(** *** The token cache *)

Lemma loadUserTokens_warm (s : State) :
  0 < size (deref s (userTokensCache s)) →
  loadUserTokens s = (Return (userTokensCache s), s).
Proof.
  intros H. unfold loadUserTokens. run.
  rewrite bool_decide_eq_true_2 by done. done.
Qed.

Lemma loadUserTokens_cold (s : State) :
  size (deref s (userTokensCache s)) = 0 →
  loadUserTokens s =
    match user_tokens_file s with
    | Holds m =>
        (Return (length (heap s)),
         set_userTokensCache (length (heap s))
           (set_heap (heap s ++ [m])
              (set_calls (calls s ++ [ExistsSync USER_TOKENS_PATH;
                                      ReadFileSync USER_TOKENS_PATH]) s)))
    | Unreadable =>
        (Return (S (length (heap s))),
         set_userTokensCache (length (heap s))
           (set_heap (heap s ++ [∅; ∅])
              (set_calls (calls s ++ [ExistsSync USER_TOKENS_PATH;
                                      ReadFileSync USER_TOKENS_PATH]) s)))
    | Missing =>
        (Return (S (length (heap s))),
         set_userTokensCache (length (heap s))
           (set_heap (heap s ++ [∅; ∅])
              (set_calls (calls s ++ [ExistsSync USER_TOKENS_PATH]) s)))
    end.
Proof.
  intros H. unfold loadUserTokens. run.
  rewrite bool_decide_eq_false_2 by lia.
  unfold existsSync_tokens, read_tokens. run.
  destruct s as [h c cc f cf wo cl wt]; simpl in *.
  destruct f; simpl; unfold set_userTokensCache, set_heap, set_calls; simpl;
    rewrite ?length_app, <- ?app_assoc; simpl; repeat f_equal; lia.
Qed.

Lemma deref_heap (s s' : State) (l : nat) :
  heap s' = heap s → deref s' l = deref s l.
Proof. intros H. unfold deref. by rewrite H. Qed.

Lemma deref_last (s : State) (h : list (gmap string (gmap string JsVal)))
      (m : gmap string (gmap string JsVal)) :
  heap s = h ++ [m] → deref s (length h) = m.
Proof.
  intros H. unfold deref. rewrite H, lookup_app_r by lia.
  by rewrite Nat.sub_diag.
Qed.

(** A credential found through [loadUserTokens] lives in the object the
    cache variable refers to: the two separate empty objects of the cold
    paths hold nobody. *)
Lemma loadUserTokens_found (s s1 : State) (l : nat) (userId : string)
      (userToken : gmap string JsVal) :
  loadUserTokens s = (Return l, s1) →
  deref s1 l !! userId = Some userToken →
  userTokensCache s1 = l ∧ l < length (heap s1) ∧ write_ok s1 = write_ok s.
Proof.
  intros Hload Hfound.
  destruct (decide (0 < size (deref s (userTokensCache s)))) as [Hwarm|Hcold].
  - rewrite loadUserTokens_warm in Hload by done.
    injection Hload as <- <-. split; [done|]. split; [|done].
    unfold deref in Hwarm.
    destruct (heap s !! userTokensCache s) eqn:E; simpl in Hwarm.
    + by apply lookup_lt_Some in E.
    + rewrite map_size_empty in Hwarm. lia.
  - rewrite loadUserTokens_cold in Hload by lia.
    destruct (user_tokens_file s); injection Hload as <- <-; simpl.
    + exfalso. unfold deref in Hfound; simpl in Hfound.
      rewrite lookup_app_r in Hfound by lia.
      replace (S (length (heap s)) - length (heap s)) with 1 in Hfound by lia.
      simpl in Hfound. by rewrite lookup_empty in Hfound.
    + exfalso. unfold deref in Hfound; simpl in Hfound.
      rewrite lookup_app_r in Hfound by lia.
      replace (S (length (heap s)) - length (heap s)) with 1 in Hfound by lia.
      simpl in Hfound. by rewrite lookup_empty in Hfound.
    + rewrite length_app; simpl. split; [done|]. split; [lia|done].
Qed.

Lemma saveUserTokens_written (tokens : nat) (s : State) :
  write_ok s = true →
  saveUserTokens tokens s =
    (Return (),
     set_userTokensCache tokens
       (set_user_tokens_file (Holds (json_roundtrip (deref s tokens)))
          (set_calls (calls s ++ [WriteFileSync USER_TOKENS_PATH]) s))).
Proof.
  intros H. unfold saveUserTokens, write_tokens. run. rewrite H. simpl.
  reflexivity.
Qed.

Lemma saveUserTokens_failed (tokens : nat) (s : State) :
  write_ok s = false →
  saveUserTokens tokens s =
    (Return (),
     set_user_tokens_file
       (if write_tears s then Unreadable else user_tokens_file s)
       (set_calls (calls s ++ [WriteFileSync USER_TOKENS_PATH]) s)).
Proof.
  intros H. unfold saveUserTokens, write_tokens. run. rewrite H. simpl.
  destruct (write_tears s); reflexivity.
Qed.

(** Building the client touches the configuration cache and the call log
    only. *)
Lemma createOAuth2Client_frame (s s' : State) (o : Outcome OAuth2Client) :
  createOAuth2Client s = (o, s') →
  heap s' = heap s ∧ userTokensCache s' = userTokensCache s
  ∧ user_tokens_file s' = user_tokens_file s ∧ write_ok s' = write_ok s.
Proof.
  unfold createOAuth2Client, loadCredentials, existsSync_credentials,
    read_credentials. run.
  destruct s as [h l [j|] f cf wo cl wt]; simpl.
  - destruct (installed j), (web j); intros [= <- <-]; done.
  - destruct cf as [| |j]; simpl; try (intros [= <- <-]; done).
    destruct (installed j), (web j); intros [= <- <-]; done.
Qed.

Lemma createOAuth2Client_credentials (s s' : State) (c : OAuth2Client) :
  createOAuth2Client s = (Return c, s') → oa_credentials c = ∅.
Proof.
  unfold createOAuth2Client, loadCredentials, existsSync_credentials,
    read_credentials. run.
  destruct s as [h l [j|] f cf wo cl wt]; simpl.
  - destruct (installed j), (web j); intros [= <- <-]; done.
  - destruct cf as [| |j]; simpl; try discriminate.
    destruct (installed j), (web j); intros [= <- <-]; done.
Qed.

Lemma loadUserTokens_returns (s : State) :
  ∃ l s1, loadUserTokens s = (Return l, s1).
Proof.
  destruct (decide (0 < size (deref s (userTokensCache s)))) as [Hwarm|Hcold].
  - rewrite loadUserTokens_warm by done. eauto.
  - rewrite loadUserTokens_cold by lia. destruct (user_tokens_file s); eauto.
Qed.

Lemma lookupUserToken_load (userId : string) (s : State) :
  ∃ l s1, loadUserTokens s = (Return l, s1)
          ∧ lookupUserToken userId s = (Return (deref s1 l !! userId), s1).
Proof.
  destruct (loadUserTokens_returns s) as (l & s1 & Hload).
  exists l, s1. split; [done|].
  unfold lookupUserToken. run. by rewrite Hload.
Qed.

(** *** [getAuthenticatedClient], path by path *)

Lemma getAuthenticatedClient_absent (w : World) (userId : string)
      (s s1 : State) (l : nat) :
  loadUserTokens s = (Return l, s1) →
  deref s1 l !! userId = None →
  getAuthenticatedClient w userId s = (Return None, s1).
Proof.
  intros Hload Habs. unfold getAuthenticatedClient. run.
  by rewrite Hload, Habs.
Qed.

Lemma getAuthenticatedClient_config (w : World) (userId : string)
      (s s1 s2 : State) (l : nat) (userToken : gmap string JsVal) (e : JsError) :
  loadUserTokens s = (Return l, s1) →
  deref s1 l !! userId = Some userToken →
  createOAuth2Client s1 = (Throw e, s2) →
  getAuthenticatedClient w userId s = (Throw e, s2).
Proof.
  intros Hload Hfound Hcfg. unfold getAuthenticatedClient. run.
  by rewrite Hload, Hfound, Hcfg.
Qed.

Lemma getAuthenticatedClient_found (w : World) (userId : string)
      (s s1 s2 : State) (l : nat) (userToken : gmap string JsVal)
      (c : OAuth2Client) :
  loadUserTokens s = (Return l, s1) →
  deref s1 l !! userId = Some userToken →
  createOAuth2Client s1 = (Return c, s2) →
  getAuthenticatedClient w userId s =
    if near_expiry userToken (now w) then
      let s3 := set_calls (calls s2 ++ [RefreshAccessToken]) s2 in
      match refreshAccessToken w userToken with
      | Some credentials =>
          (Return (Some (setCredentials c (spread userToken credentials))),
           (saveUserTokens l
              (mutate l (λ m, <[userId := spread userToken credentials]> m) s3)).2)
      | None =>
          (Return None,
           (saveUserTokens l (mutate l (λ m, delete userId m) s3)).2)
      end
    else (Return (Some (setCredentials c userToken)), s2).
Proof.
  intros Hload Hfound Hcfg. unfold getAuthenticatedClient. run.
  rewrite Hload, Hfound, Hcfg.
  destruct (near_expiry userToken (now w)); [|done].
  destruct (refreshAccessToken w userToken) as [credentials|].
  - match goal with |- context [saveUserTokens ?a ?b] =>
      destruct (write_ok b) eqn:Hw;
      [rewrite (saveUserTokens_written a b Hw)
      |rewrite (saveUserTokens_failed a b Hw)] end; done.
  - match goal with |- context [saveUserTokens ?a ?b] =>
      destruct (write_ok b) eqn:Hw;
      [rewrite (saveUserTokens_written a b Hw)
      |rewrite (saveUserTokens_failed a b Hw)] end; done.
Qed.

(** *** Objects and their serialisation *)

Lemma spread_absent (a b : gmap string JsVal) (k : string) :
  b !! k = None → spread a b !! k = a !! k.
Proof. intros H. unfold spread. by rewrite lookup_union_r. Qed.

Lemma prop_json_object (o : gmap string JsVal) (k : string) :
  prop (json_object o) k = prop o k.
Proof.
  unfold prop, json_object.
  destruct (o !! k) as [v|] eqn:E.
  - destruct (decide (v = JUndefined)) as [->|Hv].
    + rewrite map_lookup_filter_None_2; [done|]. right.
      intros v Hv. rewrite E in Hv. injection Hv as <-. simpl. tauto.
    + erewrite map_lookup_filter_Some_2; [done|done|done].
  - rewrite map_lookup_filter_None_2; [done|]. by left.
Qed.

Lemma deref_mutate (l : nat) f (s : State) :
  l < length (heap s) → deref (mutate l f s) l = f (deref s l).
Proof.
  intros H. unfold deref, mutate; simpl.
  by rewrite list_lookup_insert_eq.
Qed.

(** *** The claims about the credential lifecycle *)

(** C1 (amended). When [getAuthenticatedClient] returns a client for a user
    with a stored credential, either the client carries the stored
    credential unchanged, and then a stored [expiry_date] that is a
    non-zero number lies at least [expiryBuffer] after the call time; or
    the stored credential was within the buffer, the refresh succeeded,
    and the client carries the stored credential overridden by the
    refresh reply, whose expiry is not looked at again. *)
Theorem getAuthenticatedClient_current_or_refreshed
        (w : World) (userId : string) (s s' : State) (client : OAuth2Client) :
  getAuthenticatedClient w userId s = (Return (Some client), s') →
  ∃ userToken s1,
    lookupUserToken userId s = (Return (Some userToken), s1)
    ∧ ((oa_credentials client = userToken
        ∧ ∀ e, userToken !! "expiry_date" = Some (JNum e) → e ≠ 0%Z →
               (now w + expiryBuffer <= e)%Z)
       ∨ (near_expiry userToken (now w) = true
          ∧ ∃ credentials,
              refreshAccessToken w userToken = Some credentials
              ∧ oa_credentials client = spread userToken credentials)).
Proof.
  intros Hget.
  destruct (lookupUserToken_load userId s) as (l & s1 & Hload & Hlook).
  destruct (deref s1 l !! userId) as [userToken|] eqn:Hfound.
  2: { rewrite (getAuthenticatedClient_absent w userId s s1 l Hload Hfound) in Hget.
       discriminate. }
  exists userToken, s1. split; [done|].
  destruct (createOAuth2Client s1) as [[c|e] s2] eqn:Hcfg.
  2: { rewrite (getAuthenticatedClient_config w userId s s1 s2 l userToken e
                  Hload Hfound Hcfg) in Hget. discriminate. }
  rewrite (getAuthenticatedClient_found w userId s s1 s2 l userToken c
             Hload Hfound Hcfg) in Hget.
  destruct (near_expiry userToken (now w)) eqn:Hnear.
  - right. split; [done|]. simpl in Hget.
    destruct (refreshAccessToken w userToken) as [credentials|]; [|discriminate].
    exists credentials. split; [done|]. by injection Hget as <- _.
  - left. injection Hget as <- _. split; [done|].
    intros e He Hnz. unfold near_expiry in Hnear. rewrite He in Hnear.
    simpl in Hnear. apply andb_false_iff in Hnear as [Hz|Hlt].
    + apply negb_false_iff, Z.eqb_eq in Hz. done.
    + apply Z.ltb_ge in Hlt. done.
Qed.

Lemma getAuthenticatedClient_current_or_refreshed_witness :
  ∃ userToken s1,
    lookupUserToken "42" (Sample.store Sample.fresh true)
    = (Return (Some userToken), s1)
    ∧ ((oa_credentials (Sample.client Sample.fresh) = userToken
        ∧ ∀ e, userToken !! "expiry_date" = Some (JNum e) → e ≠ 0%Z →
               (now Sample.granting + expiryBuffer <= e)%Z)
       ∨ (near_expiry userToken (now Sample.granting) = true
          ∧ ∃ credentials,
              refreshAccessToken Sample.granting userToken = Some credentials
              ∧ oa_credentials (Sample.client Sample.fresh)
                = spread userToken credentials)).
Proof.
  apply (getAuthenticatedClient_current_or_refreshed
           Sample.granting "42" (Sample.store Sample.fresh true)
           (getAuthenticatedClient Sample.granting "42"
              (Sample.store Sample.fresh true)).2).
  vm_compute. reflexivity.
Defined.

(** C1, as stated, fails: a refresh reply that carries no [expiry_date]
    leaves the expired one in the merged credential, and the client built
    from it is returned. *)
Lemma getAuthenticatedClient_expired_after_refresh :
  (getAuthenticatedClient Sample.granting "42" (Sample.store Sample.stale true)).1
  = Return (Some (Sample.client (spread Sample.stale Sample.reissue)))
  ∧ prop (spread Sample.stale Sample.reissue) "expiry_date" = JNum 1000
  ∧ (1000 < now Sample.granting + expiryBuffer)%Z.
Proof. vm_compute. repeat split; reflexivity. Qed.

(** C2. After a successful refresh, a field the reply does not have keeps
    the stored credential's value in the client, in the cached mapping
    and, when the write succeeds, in the file. *)
Theorem refresh_keeps_absent_fields
        (w : World) (userId : string) (s s1 s2 : State)
        (userToken credentials : gmap string JsVal) (c : OAuth2Client)
        (k : string) :
  lookupUserToken userId s = (Return (Some userToken), s1) →
  createOAuth2Client s1 = (Return c, s2) →
  near_expiry userToken (now w) = true →
  refreshAccessToken w userToken = Some credentials →
  credentials !! k = None →
  ∃ client s',
    getAuthenticatedClient w userId s = (Return (Some client), s')
    ∧ oa_credentials client !! k = userToken !! k
    ∧ deref s' (userTokensCache s') !! userId = Some (oa_credentials client)
    ∧ (write_ok s = true →
       ∃ m saved, user_tokens_file s' = Holds m
                  ∧ m !! userId = Some saved
                  ∧ prop saved k = prop userToken k).
Proof.
  intros Hlook Hcfg Hnear Hrefresh Habsent.
  destruct (lookupUserToken_load userId s) as (l & s1' & Hload & Hlook').
  rewrite Hlook in Hlook'. injection Hlook' as Hfound <-. symmetry in Hfound.
  destruct (loadUserTokens_found s s1 l userId userToken Hload Hfound)
    as (Hcache & Hlen & Hw1).
  destruct (createOAuth2Client_frame s1 s2 _ Hcfg) as (Hh & Hc & Hf & Hw2).
  rewrite (getAuthenticatedClient_found w userId s s1 s2 l userToken c
             Hload Hfound Hcfg), Hnear, Hrefresh. simpl.
  eexists _, _. split; [reflexivity|]. simpl.
  split; [by apply spread_absent|].
  set (s3 := mutate l _ _).
  assert (Hl3 : l < length (heap (set_calls (calls s2 ++ [RefreshAccessToken]) s2)))
    by (simpl; congruence).
  assert (Hd3 : deref s3 l !! userId = Some (spread userToken credentials)).
  { unfold s3. rewrite deref_mutate by done. by rewrite lookup_insert_eq. }
  destruct (write_ok s3) eqn:Hw3.
  - rewrite (saveUserTokens_written l s3 Hw3). simpl. split; [done|].
    intros _. eexists _, _. split; [reflexivity|].
    unfold json_roundtrip. rewrite lookup_fmap, Hd3. simpl.
    split; [reflexivity|].
    rewrite prop_json_object. unfold prop. by rewrite spread_absent.
  - rewrite (saveUserTokens_failed l s3 Hw3). simpl.
    replace (userTokensCache s2) with l by congruence.
    split; [done|]. intros Hw. exfalso.
    unfold s3 in Hw3. simpl in Hw3. congruence.
Qed.

Lemma refresh_keeps_absent_fields_witness :
  ∃ client s',
    getAuthenticatedClient Sample.granting "42" (Sample.store Sample.stale true)
    = (Return (Some client), s')
    ∧ oa_credentials client !! "refresh_token" = Sample.stale !! "refresh_token"
    ∧ deref s' (userTokensCache s') !! "42" = Some (oa_credentials client)
    ∧ (write_ok (Sample.store Sample.stale true) = true →
       ∃ m saved, user_tokens_file s' = Holds m
                  ∧ m !! "42" = Some saved
                  ∧ prop saved "refresh_token" = prop Sample.stale "refresh_token").
Proof.
  apply (refresh_keeps_absent_fields
           Sample.granting "42" (Sample.store Sample.stale true)
           (lookupUserToken "42" (Sample.store Sample.stale true)).2
           (createOAuth2Client
              (lookupUserToken "42" (Sample.store Sample.stale true)).2).2
           Sample.stale Sample.reissue (Sample.client ∅) "refresh_token").
  - vm_compute. reflexivity.
  - vm_compute. reflexivity.
  - vm_compute. reflexivity.
  - reflexivity.
  - vm_compute. reflexivity.
Defined.

(** C3 (amended). When the refresh fails, [getAuthenticatedClient]
    returns [null] without throwing and the user is gone from the cached
    mapping; the next store lookup finds nobody when the write of the
    deletion succeeded or another user remains in the mapping. *)
Theorem refresh_failure_deletes
        (w : World) (userId : string) (s s1 s2 : State)
        (userToken : gmap string JsVal) (c : OAuth2Client) :
  lookupUserToken userId s = (Return (Some userToken), s1) →
  createOAuth2Client s1 = (Return c, s2) →
  near_expiry userToken (now w) = true →
  refreshAccessToken w userToken = None →
  ∃ s',
    getAuthenticatedClient w userId s = (Return None, s')
    ∧ deref s' (userTokensCache s') !! userId = None
    ∧ (write_ok s = true
       ∨ (∃ other, other ≠ userId
                   ∧ is_Some (deref s1 (userTokensCache s1) !! other)) →
       ∃ s'', lookupUserToken userId s' = (Return None, s'')).
Proof.
  intros Hlook Hcfg Hnear Hrefresh.
  destruct (lookupUserToken_load userId s) as (l & s1' & Hload & Hlook').
  rewrite Hlook in Hlook'. injection Hlook' as Hfound <-. symmetry in Hfound.
  destruct (loadUserTokens_found s s1 l userId userToken Hload Hfound)
    as (Hcache & Hlen & Hw1).
  destruct (createOAuth2Client_frame s1 s2 _ Hcfg) as (Hh & Hc & Hf & Hw2).
  rewrite (getAuthenticatedClient_found w userId s s1 s2 l userToken c
             Hload Hfound Hcfg), Hnear, Hrefresh. simpl.
  eexists. split; [reflexivity|].
  set (s3 := mutate l _ _).
  assert (Hl3 : l < length (heap (set_calls (calls s2 ++ [RefreshAccessToken]) s2)))
    by (simpl; congruence).
  assert (Hd3 : deref s3 l = delete userId (deref s1 l)).
  { unfold s3. rewrite deref_mutate by done. unfold deref; simpl. by rewrite Hh. }
  assert (Hgone : ∀ s4, userTokensCache s4 = l → heap s4 = heap s3 →
            (0 < size (deref s4 l)
             ∨ ∃ m, user_tokens_file s4 = Holds m ∧ m !! userId = None) →
            ∃ s'', lookupUserToken userId s4 = (Return None, s'')).
  { intros s4 Hc4 Hh4 Hcase.
    assert (Hd4 : deref s4 l = delete userId (deref s1 l))
      by (by rewrite (deref_heap s3)).
    destruct (lookupUserToken_load userId s4) as (l4 & s5 & Hload4 & ->).
    destruct (decide (0 < size (deref s4 (userTokensCache s4)))) as [Hwarm|Hcold].
    - rewrite loadUserTokens_warm in Hload4 by done.
      injection Hload4 as <- <-. rewrite Hc4, Hd4, lookup_delete_eq. eauto.
    - rewrite Hc4 in Hcold. destruct Hcase as [?|(m & Hm & Hnone)]; [lia|].
      rewrite loadUserTokens_cold, Hm in Hload4 by (rewrite Hc4; lia).
      injection Hload4 as <- <-.
      erewrite deref_last by (simpl; reflexivity). rewrite Hnone. eauto. }
  destruct (write_ok s3) eqn:Hw3.
  - rewrite (saveUserTokens_written l s3 Hw3). simpl.
    split.
    + by rewrite (deref_heap s3), Hd3, lookup_delete_eq.
    + intros _. apply Hgone; [done|done|]. right. eexists. split; [reflexivity|].
      unfold json_roundtrip. by rewrite lookup_fmap, Hd3, lookup_delete_eq.
  - rewrite (saveUserTokens_failed l s3 Hw3). simpl.
    replace (userTokensCache s2) with l by congruence.
    split.
    + by rewrite (deref_heap s3), Hd3, lookup_delete_eq.
    + intros [Hw|(other & Hne & Hother)].
      { exfalso. unfold s3 in Hw3. simpl in Hw3. congruence. }
      apply Hgone; [simpl; congruence|done|]. left.
      rewrite (deref_heap s3), Hd3 by done.
      rewrite Hcache in Hother. destruct Hother as [t Ht].
      assert (delete userId (deref s1 l) !! other = Some t) as Hkept
        by (by rewrite lookup_delete_ne).
      destruct (decide (size (delete userId (deref s1 l)) = 0)) as [Hz|]; [|lia].
      apply map_size_empty_inv in Hz. rewrite Hz, lookup_empty in Hkept. done.
Qed.

Lemma refresh_failure_deletes_witness :
  ∃ s',
    getAuthenticatedClient Sample.rejecting "42" (Sample.store Sample.stale true)
    = (Return None, s')
    ∧ deref s' (userTokensCache s') !! "42" = None
    ∧ ∃ s'', lookupUserToken "42" s' = (Return None, s'').
Proof.
  destruct (refresh_failure_deletes
              Sample.rejecting "42" (Sample.store Sample.stale true)
              (lookupUserToken "42" (Sample.store Sample.stale true)).2
              (createOAuth2Client
                 (lookupUserToken "42" (Sample.store Sample.stale true)).2).2
              Sample.stale (Sample.client ∅))
    as (s' & Hnull & Hgone & Hnext).
  - vm_compute. reflexivity.
  - vm_compute. reflexivity.
  - vm_compute. reflexivity.
  - reflexivity.
  - exists s'. split; [exact Hnull|]. split; [exact Hgone|].
    apply Hnext. left. reflexivity.
Defined.

(** C3, as stated, fails: with the only user deleted the cached mapping is
    empty, which [loadUserTokens] takes for a cache not yet loaded; if the
    write of the deletion failed, the file still holds the credential and
    the next lookup reads it back. *)
Lemma refresh_failure_credential_returns :
  (getAuthenticatedClient Sample.rejecting "42" (Sample.store Sample.stale false)).1
  = Return None
  ∧ (lookupUserToken "42"
       (getAuthenticatedClient Sample.rejecting "42"
          (Sample.store Sample.stale false)).2).1
    = Return (Some Sample.stale).
Proof. vm_compute. split; reflexivity. Qed.

(** C4 (amended). When the write fails, [saveUserTokens] catches the error
    and returns normally: no error reaches the caller. It leaves the cache
    variable and the objects in memory as they were. *)
Theorem saveUserTokens_swallows_write_error (tokens : nat) (s : State) :
  write_ok s = false →
  ∃ s',
    saveUserTokens tokens s = (Return (), s')
    ∧ userTokensCache s' = userTokensCache s
    ∧ heap s' = heap s.
Proof.
  intros Hw. rewrite (saveUserTokens_failed tokens s Hw).
  eexists. split; [reflexivity|]. done.
Qed.

Lemma saveUserTokens_swallows_write_error_witness :
  ∃ s',
    saveUserTokens 0 (Sample.store Sample.fresh false) = (Return (), s')
    ∧ userTokensCache s' = userTokensCache (Sample.store Sample.fresh false)
    ∧ heap s' = heap (Sample.store Sample.fresh false).
Proof.
  apply (saveUserTokens_swallows_write_error 0 (Sample.store Sample.fresh false)).
  reflexivity.
Defined.

(** C4, as stated, fails: with the write failing, [saveUserTokens] returns
    normally, and [exchangeCodeForToken] on a loaded cache reports success
    while the cached mapping holds the new credential and the file the old
    one. *)
Lemma saveUserTokens_no_error_propagated :
  write_ok Sample.loaded_readonly = false
  ∧ (saveUserTokens (userTokensCache Sample.loaded_readonly)
                    Sample.loaded_readonly).1 = Return ()
  ∧ Sample.exchanged.1 = Return true
  ∧ deref Sample.exchanged.2 (userTokensCache Sample.exchanged.2) !! "42"
    = Some Sample.fresh
  ∧ user_tokens_file Sample.exchanged.2 = Holds {[ "42" := Sample.stale ]}.
Proof. vm_compute. repeat split; reflexivity. Qed.

(** C9 (amended). A missing or unreadable client configuration makes
    [loadCredentials] throw when a client is first built; an unreadable
    token file does not: [loadUserTokens] catches the error and goes on
    with an empty mapping. *)
Theorem unreadable_startup_files (s : State) :
  (credentialsCache s = None →
   credentials_file s = Missing ∨ credentials_file s = Unreadable →
   ∃ e s', loadCredentials s = (Throw e, s')
           ∧ createOAuth2Client s = (Throw e, s'))
  ∧ (size (deref s (userTokensCache s)) = 0 →
     user_tokens_file s = Unreadable →
     ∃ l s', loadUserTokens s = (Return l, s')
             ∧ deref s' l = ∅
             ∧ deref s' (userTokensCache s') = ∅).
Proof.
  split.
  - intros Hcache Hfile.
    unfold createOAuth2Client, loadCredentials, existsSync_credentials,
      read_credentials. run.
    destruct s as [h l cc f cf wo cl wt]; simpl in *. subst cc.
    destruct Hfile as [-> | ->]; simpl; eauto.
  - intros Hcold Hfile. rewrite loadUserTokens_cold, Hfile by done.
    eexists _, _. split; [reflexivity|].
    unfold deref; simpl.
    rewrite !lookup_app_r by lia.
    replace (S (length (heap s)) - length (heap s)) with 1 by lia.
    rewrite Nat.sub_diag. done.
Qed.

Lemma unreadable_startup_files_witness :
  (∃ e s', loadCredentials (initial Unreadable Missing true) = (Throw e, s')
           ∧ createOAuth2Client (initial Unreadable Missing true) = (Throw e, s'))
  ∧ (∃ l s', loadUserTokens (initial Unreadable Missing true) = (Return l, s')
             ∧ deref s' l = ∅
             ∧ deref s' (userTokensCache s') = ∅).
Proof.
  destruct (unreadable_startup_files (initial Unreadable Missing true))
    as [Hconfig Htokens].
  split.
  - apply Hconfig; [reflexivity|left; reflexivity].
  - apply Htokens; [vm_compute|]; reflexivity.
Defined.

(** C9, as stated, fails: with an unreadable token file the first lookup
    returns normally from an empty mapping. *)
Lemma unreadable_token_file_starts_empty :
  (loadUserTokens Sample.garbled).1 = Return 2
  ∧ deref (loadUserTokens Sample.garbled).2 2 = ∅
  ∧ (getAuthenticatedClient Sample.granting "42" Sample.garbled).1 = Return None.
Proof. vm_compute. repeat split; reflexivity. Qed.

End AuthProofs.

(** * Properties of the availability search *)

Module AvailabilityProofs.
Import Js GoogleAuth Availability.
Local Open Scope Z_scope.

(** Each slot starts after the one before it. *)
Definition chronological (l : list Slot) : Prop :=
  ∀ (i : nat) (S T : Slot),
    l !! i = Some S → l !! (i + 1)%nat = Some T → start S < start T.

Lemma chronological_snoc (l : list Slot) (x : Slot) :
  chronological l → Forall (λ S, start S < start x) l → chronological (l ++ [x]).
Proof.
  intros Hl Hx i S T HS HT.
  destruct (decide (i + 1 < length l)%nat) as [Hlt|Hge].
  - rewrite lookup_app_l in HS, HT by lia. eauto.
  - assert (l !! i = Some S) as HS'.
    { apply lookup_lt_Some in HT. rewrite length_app in HT; simpl in HT.
      rewrite lookup_app_l in HS by lia. done. }
    rewrite lookup_app_r in HT by lia.
    destruct (i + 1 - length l)%nat eqn:E; simpl in HT; [|by destruct n].
    injection HT as <-.
    rewrite Forall_forall in Hx. apply Hx.
    apply list_elem_of_lookup. eauto.
Qed.

Lemma chronological_take (n : nat) (l : list Slot) :
  chronological l → chronological (take n l).
Proof.
  intros Hl i S T HS HT.
  apply lookup_take_Some in HS as [HS _]. apply lookup_take_Some in HT as [HT _].
  eauto.
Qed.

Section Loop.
Variable tz : TimeZone.
Variable endDateTime : Z.
Variables durationMs minStartHour' maxEndHour' : Q.
Variable busyTimes : list Slot.
Hypothesis minStartHour_min : (0 <= minStartHour')%Q.

Local Abbreviation iteration' :=
  (iteration tz endDateTime durationMs minStartHour' maxEndHour' busyTimes).
Local Abbreviation search' :=
  (search tz endDateTime durationMs minStartHour' maxEndHour' busyTimes
          minStartHour_min).

Lemma search_unfold (currentTime : Z) (availableSlots : list Slot) :
  search' currentTime availableSlots =
    match iteration' currentTime availableSlots with
    | Exit => availableSlots
    | Next currentTime' availableSlots' => search' currentTime' availableSlots'
    end.
Proof.
  funelim (search' currentTime availableSlots).
  - match goal with E : iteration _ _ _ _ _ _ _ _ = Exit |- _ => by rewrite E end.
  - match goal with E : iteration _ _ _ _ _ _ _ _ = Next _ _ |- _ => by rewrite E end.
Qed.

(** A property of the loop variables kept by every pass holds when the
    loop is left. *)
Lemma search_invariant (P : Z → list Slot → Prop) :
  (∀ c l c' l', P c l → iteration' c l = Next c' l' → P c' l') →
  ∀ c l, P c l → ∃ c', P c' (search' c l).
Proof.
  intros Hstep c l. funelim (search' c l); intros HP.
  - eauto.
  - match goal with IH : ∀ Q : Z → list Slot → Prop, _ |- _ => apply IH end; eauto.
Qed.

Lemma search_passes (c : Z) (l : list Slot) :
  ∃ passes,
    passes_from tz endDateTime durationMs minStartHour' maxEndHour' busyTimes
                passes c l = Some (search' c l).
Proof.
  funelim (search' c l).
  - exists 1%nat. simpl.
    match goal with E : iteration _ _ _ _ _ _ _ _ = Exit |- _ => by rewrite E end.
  - match goal with IH : ∃ _, _ |- _ => destruct IH as [n IH] end.
    exists (S n). simpl.
    match goal with E : iteration _ _ _ _ _ _ _ _ = Next _ _ |- _ => by rewrite E end.
Qed.

Lemma maxBusyEnd_is_end (l : list Slot) (c e acc : Z) :
  let r := fold_left
    (λ maxBusyEndTime busySlot,
      if overlapping c e busySlot then
        if end_ busySlot >? maxBusyEndTime then end_ busySlot
        else maxBusyEndTime
      else maxBusyEndTime) l acc in
  r = acc ∨ ∃ b, In b l ∧ overlapping c e b = true ∧ r = end_ b.
Proof.
  revert acc. induction l as [|x l IH]; intros acc; simpl; [by left|].
  destruct (IH (if overlapping c e x
                then if end_ x >? acc then end_ x else acc else acc))
    as [Hr|(b & Hin & Hov & Hr)].
  - destruct (overlapping c e x) eqn:Hx; [|by left].
    destruct (end_ x >? acc); [|by left].
    right. exists x. auto.
  - right. exists b. auto.
Qed.

(** What one pass does: it leaves the loop, or takes one of the four
    ways on, each with a later [currentTime]. *)
Lemma iteration_cases (c : Z) (l : list Slot) :
  iteration' c l = Exit
  ∨ (iteration' c l = Next (setHours tz c minStartHour') l
     ∧ c < setHours tz c minStartHour')
  ∨ (iteration' c l = Next (nextDate tz (setHours tz c minStartHour')) l
     ∧ c < nextDate tz (setHours tz c minStartHour'))
  ∨ (∃ b, In b busyTimes
          ∧ iteration' c l = Next (end_ b) l
          ∧ c < end_ b)
  ∨ (iteration' c l = Next (c + 15 * 60 * 1000) (l ++ [mkSlot c (slotEnd durationMs c)])
     ∧ setHours tz c minStartHour' <= c
     ∧ slotEnd durationMs c <= setHours tz c maxEndHour'
     ∧ Forall (λ b, overlapping c (slotEnd durationMs c) b = false) busyTimes).
Proof.
  destruct (iteration' c l) as [|c' l'] eqn:E; [by left|right].
  pose proof (iteration_Next _ _ _ _ _ _ minStartHour_min _ _ _ _ E) as [_ Hlt].
  revert E. unfold iteration.
  destruct (_ && _); [|discriminate].
  destruct (slotEnd durationMs c >? endDateTime); [discriminate|].
  destruct (Z.ltb_spec c (setHours tz c minStartHour')); simpl.
  { intros [= <- <-]. by left. }
  destruct (Z.gtb_spec (slotEnd durationMs c) (setHours tz c maxEndHour')).
  { intros [= <- <-]. right. by left. }
  destruct (existsb _ _) eqn:Hex; simpl; intros [= <- <-]; right; right.
  - left. unfold maxBusyEnd in *.
    destruct (maxBusyEnd_is_end busyTimes c (slotEnd durationMs c) c)
      as [Hr|(b & Hin & _ & Hr)]; [lia|].
    exists b. rewrite Hr in *. auto.
  - right. repeat split; [lia|lia|].
    apply Forall_forall. intros b Hb%list_elem_of_In.
    destruct (overlapping c (slotEnd durationMs c) b) eqn:Hov; [|done].
    assert (existsb (overlapping c (slotEnd durationMs c)) busyTimes = true)
      by (apply existsb_exists; eauto).
    congruence.
Qed.

(** A slot the loop may add. *)
Definition accepted (S : Slot) : Prop :=
  end_ S = slotEnd durationMs (start S)
  ∧ setHours tz (start S) minStartHour' <= start S
  ∧ end_ S <= setHours tz (start S) maxEndHour'
  ∧ Forall (λ b, overlapping (start S) (end_ S) b = false) busyTimes.

Definition loop_invariant (c : Z) (l : list Slot) : Prop :=
  Forall accepted l ∧ chronological l ∧ Forall (λ S, start S < c) l.

Lemma loop_invariant_kept (c c' : Z) (l l' : list Slot) :
  loop_invariant c l → iteration' c l = Next c' l' → loop_invariant c' l'.
Proof.
  intros (Hacc & Hchr & Hbefore) E.
  assert (Hmono : ∀ d, c < d → Forall (λ S, start S < d) l).
  { intros d Hd. eapply Forall_impl; [exact Hbefore|]. simpl. intros; lia. }
  destruct (iteration_cases c l)
    as [Ex|[[Ex Hlt]|[[Ex Hlt]|[(b & _ & Ex & Hlt)|(Ex & H1 & H2 & H3)]]]];
    rewrite Ex in E; try discriminate; injection E as <- <-.
  - repeat split; auto.
  - repeat split; auto.
  - repeat split; auto.
  - split; [|split].
    + apply Forall_app. split; [done|]. apply Forall_singleton.
      repeat split; simpl; done.
    + apply chronological_snoc; done.
    + apply Forall_app. split; [apply Hmono; lia|].
      apply Forall_singleton. simpl. lia.
Qed.

Lemma search_result (c : Z) :
  Forall accepted (search' c []) ∧ chronological (search' c []).
Proof.
  destruct (search_invariant loop_invariant) with (c := c) (l := @nil Slot)
    as (c' & Hacc & Hchr & _).
  - intros. eapply loop_invariant_kept; eauto.
  - repeat split; [apply Forall_nil; done| |apply Forall_nil; done].
    intros i S T HS. by rewrite lookup_nil in HS.
  - done.
Qed.

End Loop.

(** *** [execute] *)

Lemma rethrow_throws {A : Type} (e : JsError) (s : State) :
  ∃ e', @rethrow A e s = (Throw e', s).
Proof. unfold rethrow. destruct (includes _ _); eauto. Qed.

Lemma schema_duration (c : Context) :
  inputSchema c = true → (1 <= duration c)%Q.
Proof.
  unfold inputSchema. intros H.
  apply andb_prop in H as [H _]. apply andb_prop in H as [H _].
  by apply Qle_bool_iff.
Qed.

Lemma schema_durationMs (c : Context) :
  inputSchema c = true → (1 <= duration c * 60 * 1000)%Q.
Proof. intros H%schema_duration. lra. Qed.

(** With a duration of a millisecond or more the end of a candidate slot
    lies after its start, fraction dropped or not. *)
Lemma slotEnd_after (durationMs : Q) (c : Z) :
  (1 <= durationMs)%Q → c < slotEnd durationMs c.
Proof.
  intros H. unfold slotEnd, newDate.
  apply Z.lt_le_trans with (c + 1); [lia|].
  rewrite <- (truncate_inject_Z (c + 1)). apply truncate_le.
  rewrite inject_Z_plus. by apply Qplus_le_r.
Qed.

(** A whole number of milliseconds is added as it is. *)
Lemma slotEnd_whole (durationMs : Q) (n c : Z) :
  (durationMs == inject_Z n)%Q → slotEnd durationMs c = c + n.
Proof.
  intros H. unfold slotEnd, newDate.
  rewrite <- (truncate_inject_Z (c + n)). apply truncate_comp.
  rewrite inject_Z_plus. by apply Qplus_inj_l.
Qed.

(** When [execute] returns, it returns the first ten slots of the search
    over the events the calendar listed. *)
Lemma execute_Return (w : World) (tz : TimeZone) (items : Outcome (option (list Event)))
      (context : Context) (valid : inputSchema context = true)
      (s s' : State) (slots : list Slot) :
  execute w tz items context valid s = (Return slots, s') →
  ∃ a b events,
    startDate context = Some a ∧ endDate context = Some b ∧ a < b
    ∧ items = Return events
    ∧ slots = take 10
        (search tz b (duration context * 60 * 1000)%Q
                (default 9%Q (minStartHour context))
                (default 17%Q (maxEndHour context))
                (busyTimesOf (default [] events))
                (schema_minStartHour context valid) a []).
Proof.
  unfold execute.
  destruct (String.eqb _ _); [discriminate|].
  destruct (startDate context) as [a|]; [|discriminate].
  destruct (endDate context) as [b|]; [|discriminate].
  destruct (Z.leb_spec b a); [discriminate|].
  run.
  destruct (getCalendarService w (userId context) s) as [[[c|]|e] s1]; simpl.
  - destruct items as [events|e]; simpl.
    + intros [= <- <-]. exists a, b, events. done.
    + destruct (@rethrow_throws (list Slot) e
                  (set_calls (calls s1 ++ [EventsList]) s1)) as [e' ->].
      discriminate.
  - match goal with |- context [rethrow ?e ?s] =>
      destruct (@rethrow_throws (list Slot) e s) as [e' ->] end.
    discriminate.
  - destruct (@rethrow_throws (list Slot) e s1) as [e' ->]. discriminate.
Qed.

Lemma Forall_take {A : Type} (P : A → Prop) (n : nat) (l : list A) :
  Forall P l → Forall P (take n l).
Proof.
  intros H. apply Forall_forall. intros x Hx.
  rewrite Forall_forall in H. apply H.
  apply list_elem_of_lookup in Hx as [i Hi].
  apply lookup_take_Some in Hi as [Hi _].
  apply list_elem_of_lookup. eauto.
Qed.

(** *** The claims about the availability search *)

(** C5. No slot [execute] returns overlaps a busy interval taken from the
    listed events. *)
Theorem slots_avoid_busy
        (w : World) (tz : TimeZone) (items : Outcome (option (list Event)))
        (context : Context) (valid : inputSchema context = true)
        (s s' : State) (slots : list Slot) :
  execute w tz items context valid s = (Return slots, s') →
  ∃ events,
    items = Return events
    ∧ ∀ S B, S ∈ slots → B ∈ busyTimesOf (default [] events) →
             ¬ (start S < end_ B ∧ end_ S > start B).
Proof.
  intros Hex.
  apply execute_Return in Hex as (a & b & events & _ & _ & _ & -> & ->).
  exists events. split; [done|]. intros S B HS HB.
  pose proof (search_result tz b (duration context * 60 * 1000)%Q
                (default 9%Q (minStartHour context))
                (default 17%Q (maxEndHour context))
                (busyTimesOf (default [] events))
                (schema_minStartHour context valid) a) as [Hacc _].
  apply (Forall_take _ 10) in Hacc. rewrite Forall_forall in Hacc.
  destruct (Hacc S HS) as (_ & _ & _ & Hfree).
  rewrite Forall_forall in Hfree. specialize (Hfree B HB).
  unfold overlapping in Hfree. intros [H1 H2].
  apply andb_false_iff in Hfree as [Hf|Hf].
  - apply Z.ltb_ge in Hf. lia.
  - rewrite Z.gtb_ltb in Hf. apply Z.ltb_ge in Hf. lia.
Qed.

Lemma slots_avoid_busy_witness :
  ∃ events,
    Return (Some Sample.meetings) = Return events
    ∧ ∀ S B, S ∈ Sample.offered → B ∈ busyTimesOf (default [] events) →
             ¬ (start S < end_ B ∧ end_ S > start B).
Proof.
  apply (slots_avoid_busy Sample.granting utc (Return (Some Sample.meetings))
           Sample.request eq_refl (Sample.store Sample.fresh true)
           (execute Sample.granting utc (Return (Some Sample.meetings))
              Sample.request eq_refl (Sample.store Sample.fresh true)).2).
  vm_compute. reflexivity.
Defined.

(** C6 (amended). Every slot [execute] returns starts no earlier than the
    minimum hour and ends no later than the maximum hour of the local
    calendar day it starts on, each of the two hours taken without its
    fraction, as [setHours] reads it. *)
Theorem slots_within_whole_working_hours
        (w : World) (tz : TimeZone) (items : Outcome (option (list Event)))
        (context : Context) (valid : inputSchema context = true)
        (s s' : State) (slots : list Slot) :
  execute w tz items context valid s = (Return slots, s') →
  ∀ S, S ∈ slots →
       atHour tz (start S) (truncate (default 9%Q (minStartHour context)))
       <= start S
       ∧ start S < end_ S
       ∧ end_ S
         <= atHour tz (start S) (truncate (default 17%Q (maxEndHour context))).
Proof.
  intros Hex S HS.
  apply execute_Return in Hex as (a & b & events & _ & _ & _ & -> & ->).
  pose proof (search_result tz b (duration context * 60 * 1000)%Q
                (default 9%Q (minStartHour context))
                (default 17%Q (maxEndHour context))
                (busyTimesOf (default [] events))
                (schema_minStartHour context valid) a) as [Hacc _].
  apply (Forall_take _ 10) in Hacc. rewrite Forall_forall in Hacc.
  destruct (Hacc S HS) as (Hend & Hmin & Hmax & _).
  pose proof (slotEnd_after _ (start S) (schema_durationMs context valid)).
  repeat split; [done|lia|done].
Qed.

Lemma slots_within_whole_working_hours_witness :
  atHour utc (start (Sample.half_hour (Sample.at_ 9 0)))
         (truncate (default 9%Q (minStartHour Sample.from_half_past_nine)))
  <= start (Sample.half_hour (Sample.at_ 9 0))
  ∧ start (Sample.half_hour (Sample.at_ 9 0)) < end_ (Sample.half_hour (Sample.at_ 9 0))
  ∧ end_ (Sample.half_hour (Sample.at_ 9 0))
    <= atHour utc (start (Sample.half_hour (Sample.at_ 9 0)))
              (truncate (default 17%Q (maxEndHour Sample.from_half_past_nine))).
Proof.
  apply (slots_within_whole_working_hours
           Sample.granting utc (Return (Some Sample.meetings))
           Sample.from_half_past_nine eq_refl (Sample.store Sample.fresh true)
           (execute Sample.granting utc (Return (Some Sample.meetings))
              Sample.from_half_past_nine eq_refl
              (Sample.store Sample.fresh true)).2
           Sample.offered eq_refl (Sample.half_hour (Sample.at_ 9 0))).
  apply list_elem_of_lookup. exists 0%nat. reflexivity.
Defined.

(** C6, as stated, fails: a request with minimum hour 9.5 passes the input
    schema, [setHours] reads the hour as 9, and the first slot offered
    starts at 09:00, half an hour before hour 9.5 of its day. *)
Lemma slot_before_fractional_minimum_hour :
  inputSchema Sample.from_half_past_nine = true
  ∧ (execute Sample.granting utc (Return (Some Sample.meetings))
             Sample.from_half_past_nine eq_refl
             (Sample.store Sample.fresh true)).1
    = Return Sample.offered
  ∧ head Sample.offered = Some (Sample.half_hour (Sample.at_ 9 0))
  ∧ (inject_Z (start (Sample.half_hour (Sample.at_ 9 0)))
     < inject_Z Sample.midnight + 9.5 * inject_Z msPerHour)%Q.
Proof. vm_compute. repeat split; reflexivity. Qed.

(** C7. [execute] returns at most ten slots, each starting strictly after
    the one before it. *)
Theorem slots_capped_and_chronological
        (w : World) (tz : TimeZone) (items : Outcome (option (list Event)))
        (context : Context) (valid : inputSchema context = true)
        (s s' : State) (slots : list Slot) :
  execute w tz items context valid s = (Return slots, s') →
  (length slots <= 10)%nat
  ∧ ∀ (i : nat) (S T : Slot),
      slots !! i = Some S → slots !! (i + 1)%nat = Some T → start S < start T.
Proof.
  intros Hex.
  apply execute_Return in Hex as (a & b & events & _ & _ & _ & -> & ->).
  split.
  - rewrite length_take. lia.
  - apply chronological_take.
    apply (search_result tz b (duration context * 60 * 1000)%Q
             (default 9%Q (minStartHour context))
             (default 17%Q (maxEndHour context))
             (busyTimesOf (default [] events))
             (schema_minStartHour context valid) a).
Qed.

Lemma slots_capped_and_chronological_witness :
  (length Sample.offered <= 10)%nat
  ∧ ∀ (i : nat) (S T : Slot),
      Sample.offered !! i = Some S → Sample.offered !! (i + 1)%nat = Some T →
      start S < start T.
Proof.
  apply (slots_capped_and_chronological
           Sample.granting utc (Return (Some Sample.meetings))
           Sample.request eq_refl (Sample.store Sample.fresh true)
           (execute Sample.granting utc (Return (Some Sample.meetings))
              Sample.request eq_refl (Sample.store Sample.fresh true)).2).
  vm_compute. reflexivity.
Defined.




(** C10. For a request that passed the input schema, every pass through
    the loop either leaves it or goes on with a strictly later
    [currentTime]: the start of the day's window, the start of the next
    day's window, the end of a busy interval, or a quarter of an hour on
    after a slot was added. [search], defined by well-founded recursion on
    the distance to [endDateTime], is that loop, and finitely many passes
    reach its result. *)
Theorem search_advances_and_terminates
        (tz : TimeZone) (endDateTime : Z) (busyTimes : list Slot)
        (context : Context) (valid : inputSchema context = true)
        (c : Z) (l : list Slot) :
  let durationMs := (duration context * 60 * 1000)%Q in
  let minHour := default 9%Q (minStartHour context) in
  let maxHour := default 17%Q (maxEndHour context) in
  let pass := iteration tz endDateTime durationMs minHour maxHour busyTimes in
  let loop := search tz endDateTime durationMs minHour maxHour busyTimes
                     (schema_minStartHour context valid) in
  (pass c l = Exit
   ∨ (pass c l = Next (setHours tz c minHour) l ∧ c < setHours tz c minHour)
   ∨ (pass c l = Next (nextDate tz (setHours tz c minHour)) l
      ∧ c < nextDate tz (setHours tz c minHour))
   ∨ (∃ b, b ∈ busyTimes ∧ pass c l = Next (end_ b) l ∧ c < end_ b)
   ∨ pass c l = Next (c + 15 * 60 * 1000) (l ++ [mkSlot c (slotEnd durationMs c)]))
  ∧ loop c l = match pass c l with
               | Exit => l
               | Next c' l' => loop c' l'
               end
  ∧ ∃ passes, passes_from tz endDateTime durationMs minHour maxHour busyTimes
                          passes c l = Some (loop c l).
Proof.
  intros durationMs minHour maxHour pass loop. split; [|split].
  - destruct (iteration_cases tz endDateTime durationMs minHour maxHour busyTimes
                (schema_minStartHour context valid) c l)
      as [Ex|[Ex|[Ex|[(b & Hin & Ex)|(Ex & _)]]]]; auto.
    do 3 right. left. exists b. split; [by apply list_elem_of_In|done].
  - apply search_unfold.
  - apply search_passes.
Qed.

Lemma search_advances_and_terminates_witness :
  (Sample.pass Sample.midnight [] = Exit
   ∨ (Sample.pass Sample.midnight [] = Next (setHours utc Sample.midnight 9%Q) []
      ∧ Sample.midnight < setHours utc Sample.midnight 9%Q)
   ∨ (Sample.pass Sample.midnight []
      = Next (nextDate utc (setHours utc Sample.midnight 9%Q)) []
      ∧ Sample.midnight < nextDate utc (setHours utc Sample.midnight 9%Q))
   ∨ (∃ b, b ∈ busyTimesOf Sample.meetings
           ∧ Sample.pass Sample.midnight [] = Next (end_ b) []
           ∧ Sample.midnight < end_ b)
   ∨ Sample.pass Sample.midnight []
     = Next (Sample.midnight + 15 * 60 * 1000)
            ([] ++ [mkSlot Sample.midnight (Sample.midnight + 30 * 60 * 1000)]))
  ∧ Sample.loop Sample.midnight []
    = match Sample.pass Sample.midnight [] with
      | Exit => []
      | Next c' l' => Sample.loop c' l'
      end
  ∧ ∃ passes,
      passes_from utc (Sample.at_ 24 0) (30 * 60 * 1000)%Q 9%Q 17%Q
                  (busyTimesOf Sample.meetings) passes Sample.midnight []
      = Some (Sample.loop Sample.midnight []).
Proof.
  apply (search_advances_and_terminates utc (Sample.at_ 24 0)
           (busyTimesOf Sample.meetings) Sample.request eq_refl
           Sample.midnight []).
Defined.

End AvailabilityProofs.

(** * More on the credential store *)

Module AuthMore.
Import Js GoogleAuth AuthProofs.

(** *** What a load leaves behind *)

(** The three ways out of [loadUserTokens]: the cached object; a new object
    holding the file's mapping, now cached; or a new empty object that is
    not the (empty) cached one. The files, the configuration cache and the
    writability are not touched. *)
Lemma loadUserTokens_shape (s : State) :
  ∃ l s1,
    loadUserTokens s = (Return l, s1)
    ∧ l < length (heap s1)
    ∧ write_ok s1 = write_ok s
    ∧ user_tokens_file s1 = user_tokens_file s
    ∧ credentialsCache s1 = credentialsCache s
    ∧ credentials_file s1 = credentials_file s
    ∧ ((0 < size (deref s (userTokensCache s)) ∧ s1 = s ∧ l = userTokensCache s)
       ∨ (size (deref s (userTokensCache s)) = 0
          ∧ ∃ m, user_tokens_file s = Holds m
                 ∧ userTokensCache s1 = l ∧ deref s1 l = m)
       ∨ (size (deref s (userTokensCache s)) = 0
          ∧ (user_tokens_file s = Missing ∨ user_tokens_file s = Unreadable)
          ∧ deref s1 l = ∅ ∧ deref s1 (userTokensCache s1) = ∅
          ∧ userTokensCache s1 < length (heap s1)
          ∧ userTokensCache s1 ≠ l)).
Proof.
  destruct (decide (0 < size (deref s (userTokensCache s)))) as [Hwarm|Hcold].
  - exists (userTokensCache s), s. rewrite loadUserTokens_warm by done.
    assert (userTokensCache s < length (heap s)).
    { unfold deref in Hwarm.
      destruct (heap s !! userTokensCache s) eqn:E; simpl in Hwarm.
      - by apply lookup_lt_Some in E.
      - rewrite map_size_empty in Hwarm. lia. }
    repeat split; try done. by left.
  - assert (Hz : size (deref s (userTokensCache s)) = 0) by lia.
    rewrite loadUserTokens_cold by done.
    assert (Hsnd : ∀ s', heap s' = heap s ++ [∅; ∅] →
              deref s' (S (length (heap s))) = ∅ ∧ deref s' (length (heap s)) = ∅).
    { intros s' Hh. unfold deref. rewrite Hh, !lookup_app_r by lia.
      replace (S (length (heap s)) - length (heap s)) with 1 by lia.
      rewrite Nat.sub_diag. done. }
    destruct (user_tokens_file s) as [| |m] eqn:Hf; eexists _, _;
      (split; [reflexivity|]); simpl; rewrite ?length_app; simpl.
    + repeat split; try done; try lia. right; right.
      destruct (Hsnd (set_userTokensCache (length (heap s))
                        (set_heap (heap s ++ [∅; ∅])
                           (set_calls (calls s ++ [ExistsSync USER_TOKENS_PATH]) s))))
        as [H1 H2]; [done|].
      repeat split; try done; try lia; by left.
    + repeat split; try done; try lia. right; right.
      destruct (Hsnd (set_userTokensCache (length (heap s))
                        (set_heap (heap s ++ [∅; ∅])
                           (set_calls (calls s ++ [ExistsSync USER_TOKENS_PATH;
                                                   ReadFileSync USER_TOKENS_PATH]) s))))
        as [H1 H2]; [done|].
      repeat split; try done; try lia; by right.
    + repeat split; try done; try lia. right; left.
      split; [done|]. exists m. repeat split; try done.
      by apply deref_last.
Qed.

(** The credential a lookup finds, read off the state: the cached mapping
    when it holds somebody, the file's mapping otherwise. *)
Definition visible (s : State) (userId : string) : option (gmap string JsVal) :=
  if decide (0 < size (deref s (userTokensCache s))) then
    deref s (userTokensCache s) !! userId
  else
    match user_tokens_file s with
    | Holds m => m !! userId
    | _ => None
    end.

Lemma lookupUserToken_visible (userId : string) (s : State) :
  (lookupUserToken userId s).1 = Return (visible s userId).
Proof.
  destruct (lookupUserToken_load userId s) as (l & s1 & Hload & ->). simpl.
  unfold visible.
  destruct (loadUserTokens_shape s)
    as (l' & s1' & Hload' & _ & _ & _ & _ & _ & Hcase).
  rewrite Hload in Hload'. injection Hload' as <- <-.
  destruct Hcase as [(Hw & -> & ->)|[(Hz & m & Hf & _ & Hm)|(Hz & Hf & He & _)]].
  - by rewrite decide_True.
  - rewrite decide_False by lia. by rewrite Hf, Hm.
  - rewrite decide_False by lia. rewrite He, lookup_empty.
    by destruct Hf as [-> | ->].
Qed.

Lemma visible_ext (s s' : State) (userId : string) :
  heap s' = heap s → userTokensCache s' = userTokensCache s →
  user_tokens_file s' = user_tokens_file s →
  visible s' userId = visible s userId.
Proof.
  intros Hh Hc Hf. unfold visible.
  by rewrite Hc, Hf, (deref_heap s s') by done.
Qed.

Lemma deref_mutate_ne (l l' : nat) f (s : State) :
  l ≠ l' → deref (mutate l f s) l' = deref s l'.
Proof.
  intros H. unfold deref, mutate; simpl. by rewrite list_lookup_insert_ne.
Qed.

Lemma size_insert_pos (m : gmap string (gmap string JsVal)) (k : string)
      (v : gmap string JsVal) :
  0 < size (<[k := v]> m).
Proof.
  destruct (decide (size (<[k := v]> m) = 0)) as [Hz|]; [|lia].
  apply map_size_empty_inv in Hz.
  assert (<[k := v]> m !! k = Some v) as Hk by apply lookup_insert_eq.
  rewrite Hz, lookup_empty in Hk. done.
Qed.

(** *** [exchangeCodeForToken] *)

Definition complete (tokens : gmap string JsVal) : bool :=
  truthy (prop tokens "access_token") && truthy (prop tokens "refresh_token").

Lemma exchange_refused (getToken : option (gmap string JsVal)) (userId : string)
      (s : State) :
  match getToken with Some tokens => complete tokens = false | None => True end →
  exchangeCodeForToken getToken userId s
  = (Return false, set_calls (calls s ++ [GetToken]) s).
Proof.
  unfold exchangeCodeForToken, complete. run.
  destruct getToken as [tokens|]; [|done].
  intros H.
  destruct (truthy (prop tokens "access_token")),
    (truthy (prop tokens "refresh_token")); simpl in *; done.
Qed.

Lemma exchange_stored (tokens : gmap string JsVal) (userId : string)
      (s s1 : State) (l : nat) :
  complete tokens = true →
  loadUserTokens (set_calls (calls s ++ [GetToken]) s) = (Return l, s1) →
  exchangeCodeForToken (Some tokens) userId s
  = (Return true,
     (saveUserTokens l (mutate l (λ m, <[userId := tokens]> m) s1)).2).
Proof.
  unfold exchangeCodeForToken, complete. run. intros Hc Hload.
  apply andb_prop in Hc as [-> ->]. simpl. rewrite Hload.
  match goal with |- context [saveUserTokens ?a ?b] =>
    destruct (write_ok b) eqn:Hw;
    [rewrite (saveUserTokens_written a b Hw)
    |rewrite (saveUserTokens_failed a b Hw)] end; done.
Qed.

(** Whether a stored credential can be found again: the write went through,
    or the mapping that was updated is the cached one. *)
Definition kept (s : State) : Prop :=
  write_ok s = true
  ∨ 0 < size (deref s (userTokensCache s))
  ∨ ∃ m, user_tokens_file s = Holds m.

Lemma exchange_visible (tokens : gmap string JsVal) (userId : string) (s : State) :
  complete tokens = true →
  ∃ s',
    exchangeCodeForToken (Some tokens) userId s = (Return true, s')
    ∧ (∀ other, other ≠ userId → visible s' other = visible s other)
    ∧ (kept s → visible s' userId = Some tokens)
    ∧ (¬ kept s → visible s' userId = None)
    ∧ (write_ok s = true →
       ∃ m, user_tokens_file s' = Holds m
            ∧ m !! userId = Some (json_object tokens)).
Proof.
  intros Hc.
  set (s0 := set_calls (calls s ++ [GetToken]) s).
  destruct (loadUserTokens_shape s0)
    as (l & s1 & Hload & Hl & Hw & Hf & _ & _ & Hcase).
  rewrite (exchange_stored tokens userId s s1 l Hc Hload).
  eexists. split; [reflexivity|].
  set (s3 := mutate l _ s1).
  assert (Hd3 : deref s3 l = <[userId := tokens]> (deref s1 l))
    by (unfold s3; by rewrite deref_mutate).
  assert (Hv0 : ∀ u, visible s0 u = visible s u) by (intros; by apply visible_ext).
  assert (Hpos : 0 < size (deref s3 l)) by (rewrite Hd3; apply size_insert_pos).
  assert (Hwarm : ∀ s', heap s' = heap s3 → userTokensCache s' = l →
            ∀ u, visible s' u = <[userId := tokens]> (deref s1 l) !! u).
  { intros s' Hh' Hc' u. unfold visible. rewrite Hc', (deref_heap s3 s') by done.
    rewrite decide_True by done. by rewrite Hd3. }
  assert (Hs0 : deref s0 (userTokensCache s0) = deref s (userTokensCache s)) by done.
  assert (Hw0 : write_ok s0 = write_ok s) by done.
  assert (Hf0 : user_tokens_file s0 = user_tokens_file s) by done.
  unfold kept. rewrite <- Hs0, <- Hw0, <- Hf0.
  (* what was visible before, in terms of the loaded mapping *)
  assert (Hbefore : ∀ u, visible s u = deref s1 l !! u).
  { intros u. rewrite <- Hv0. unfold visible.
    destruct Hcase as [(Hwm & -> & ->)|[(Hz & m & Hm & _ & Hd)|(Hz & Hm & He & _)]].
    - by rewrite decide_True.
    - rewrite decide_False by lia. by rewrite Hm, Hd.
    - rewrite decide_False by lia. rewrite He, lookup_empty.
      by destruct Hm as [-> | ->]. }
  destruct (write_ok s3) eqn:Hw3.
  - rewrite (saveUserTokens_written l s3 Hw3). simpl.
    assert (Hall : ∀ u, visible
              (set_userTokensCache l
                 (set_user_tokens_file (Holds (json_roundtrip (deref s3 l)))
                    (set_calls (calls s3 ++ [WriteFileSync USER_TOKENS_PATH]) s3))) u
              = <[userId := tokens]> (deref s1 l) !! u)
      by (intros; by apply Hwarm).
    split; [|split; [|split]].
    + intros other Hne. by rewrite Hall, lookup_insert_ne, Hbefore.
    + intros _. by rewrite Hall, lookup_insert_eq.
    + intros Hnot. exfalso. apply Hnot. left.
      unfold s3 in Hw3. simpl in Hw3. congruence.
    + intros _. eexists. split; [reflexivity|].
      unfold json_roundtrip. by rewrite lookup_fmap, Hd3, lookup_insert_eq.
  - rewrite (saveUserTokens_failed l s3 Hw3).
    set (s4 := set_user_tokens_file _ _).
    assert (Hh4 : heap s4 = heap s3) by done.
    assert (Hc4 : userTokensCache s4 = userTokensCache s1) by done.
    assert (Hf4 : user_tokens_file s4 = Unreadable
                  ∨ user_tokens_file s4 = user_tokens_file s0).
    { unfold s4. simpl. destruct (write_tears s1); [by left|right; congruence]. }
    simpl.
    assert (Hwf : write_ok s0 = false) by (unfold s3 in Hw3; simpl in Hw3; congruence).
    destruct Hcase as [(Hwm & -> & ->)|[(Hz & m & Hm & Hc1 & Hd)|(Hz & Hm & He & Hec & Hcl & Hne1)]].
    + assert (Hall : ∀ u, visible s4 u
                = <[userId := tokens]> (deref s0 (userTokensCache s0)) !! u)
        by (intros; by apply Hwarm).
      split; [|split; [|split]].
      * intros other Hne. by rewrite Hall, lookup_insert_ne, Hbefore.
      * intros _. by rewrite Hall, lookup_insert_eq.
      * intros Hnot. exfalso. apply Hnot. right. by left.
      * intros Hw'. congruence.
    + assert (Hall : ∀ u, visible s4 u = <[userId := tokens]> (deref s1 l) !! u)
        by (intros; apply Hwarm; congruence).
      split; [|split; [|split]].
      * intros other Hne. by rewrite Hall, lookup_insert_ne, Hbefore.
      * intros _. by rewrite Hall, lookup_insert_eq.
      * intros Hnot. exfalso. apply Hnot. right. right. eauto.
      * intros Hw'. congruence.
    + assert (Hall : ∀ u, visible s4 u = None).
      { intros u. unfold visible. rewrite Hc4.
        replace (deref s4 (userTokensCache s1))
          with (deref s1 (userTokensCache s1)).
        2: { rewrite (deref_heap s3 s4) by done. unfold s3.
             by rewrite deref_mutate_ne. }
        rewrite Hec, map_size_empty, decide_False by lia.
        destruct Hf4 as [-> | ->]; [done|].
        destruct Hm as [Hm|Hm]; by rewrite Hm. }
      split; [|split; [|split]].
      * intros other Hne. by rewrite Hall, Hbefore, He, lookup_empty.
      * unfold s0 in *; simpl in *.
        intros [Hk|[Hk|(m & Hk)]]; [congruence|lia|].
        destruct Hm as [Hm|Hm]; congruence.
      * intros _. apply Hall.
      * intros Hw'. congruence.
Qed.

(** *** Properties of the code exchange *)

Lemma exchange_answer_of (getToken : option (gmap string JsVal)) (userId : string)
      (s : State) :
  (exchangeCodeForToken getToken userId s).1
  = Return (match getToken with
            | Some tokens => truthy (prop tokens "access_token")
                             && truthy (prop tokens "refresh_token")
            | None => false
            end).
Proof.
  destruct getToken as [tokens|].
  - destruct (complete tokens) eqn:Hc.
    + destruct (exchange_visible tokens userId s Hc) as (s' & -> & _).
      unfold complete in Hc. simpl. by rewrite Hc.
    + rewrite (exchange_refused (Some tokens) userId s Hc).
      unfold complete in Hc. simpl. by rewrite Hc.
  - by rewrite (exchange_refused None userId s I).
Qed.

(** X1. [exchangeCodeForToken] never throws: every failure inside is turned
    into [false], and the answer is [true] exactly when the server's reply
    carries a truthy [access_token] and a truthy [refresh_token], whether or
    not the write to disk went through. *)
Theorem exchangeCodeForToken_answer
        (getToken : option (gmap string JsVal)) (userId : string) (s : State) :
  ∃ s',
    exchangeCodeForToken getToken userId s
    = (Return (match getToken with
               | Some tokens => truthy (prop tokens "access_token")
                                && truthy (prop tokens "refresh_token")
               | None => false
               end), s').
Proof.
  pose proof (exchange_answer_of getToken userId s) as H.
  destruct (exchangeCodeForToken getToken userId s) as [o s'].
  simpl in H. subst o. by exists s'.
Qed.

(** X2. A code exchange that is refused (the call to the server throws, or
    the reply lacks a truthy access or refresh token) neither reads nor
    writes the token file and leaves the cached mapping alone: only the call
    to the server is made. *)
Theorem exchangeCodeForToken_refused_untouched
        (getToken : option (gmap string JsVal)) (userId : string) (s : State) :
  match getToken with
  | Some tokens => truthy (prop tokens "access_token")
                   && truthy (prop tokens "refresh_token") = false
  | None => True
  end →
  exchangeCodeForToken getToken userId s
  = (Return false, set_calls (calls s ++ [GetToken]) s)
  ∧ ∀ u, (lookupUserToken u (exchangeCodeForToken getToken userId s).2).1
         = (lookupUserToken u s).1.
Proof.
  intros H. rewrite exchange_refused by done. split; [done|].
  intros u. rewrite !lookupUserToken_visible. f_equal; by apply visible_ext.
Qed.

Lemma exchangeCodeForToken_refused_untouched_witness :
  exchangeCodeForToken (Some Sample.reissue) "42" (Sample.store Sample.stale true)
  = (Return false,
     set_calls (calls (Sample.store Sample.stale true) ++ [GetToken])
               (Sample.store Sample.stale true))
  ∧ ∀ u, (lookupUserToken u
            (exchangeCodeForToken (Some Sample.reissue) "42"
               (Sample.store Sample.stale true)).2).1
         = (lookupUserToken u (Sample.store Sample.stale true)).1.
Proof.
  apply (exchangeCodeForToken_refused_untouched
           (Some Sample.reissue) "42" (Sample.store Sample.stale true)).
  vm_compute. reflexivity.
Defined.

(** X3. Store, then look up: after an exchange with a complete reply, the
    next lookup for that user returns exactly the reply's tokens, replacing
    whatever was stored, provided the write succeeded or the mapping in use
    was the cached one (the cache held somebody, or the file was readable). *)
Theorem exchangeCodeForToken_then_lookup
        (tokens : gmap string JsVal) (userId : string) (s : State) :
  truthy (prop tokens "access_token") && truthy (prop tokens "refresh_token") = true →
  write_ok s = true
  ∨ 0 < size (deref s (userTokensCache s))
  ∨ (∃ m, user_tokens_file s = Holds m) →
  (lookupUserToken userId (exchangeCodeForToken (Some tokens) userId s).2).1
  = Return (Some tokens).
Proof.
  intros Hc Hkept.
  destruct (exchange_visible tokens userId s Hc) as (s' & -> & _ & Hk & _).
  rewrite lookupUserToken_visible. simpl. f_equal. by apply Hk.
Qed.

Lemma exchangeCodeForToken_then_lookup_witness :
  (lookupUserToken "42"
     (exchangeCodeForToken (Some Sample.fresh) "42"
        (Sample.store Sample.stale true)).2).1
  = Return (Some Sample.fresh).
Proof.
  apply (exchangeCodeForToken_then_lookup
           Sample.fresh "42" (Sample.store Sample.stale true)).
  - vm_compute. reflexivity.
  - left. reflexivity.
Defined.

(** X4. When the write succeeds, a process started afresh on the written
    file finds the user's tokens again, field for field as a property read
    sees them. *)
Theorem exchangeCodeForToken_survives_restart
        (tokens : gmap string JsVal) (userId : string) (s : State)
        (config : File CredentialsJson) (writable : bool) (k : string) :
  truthy (prop tokens "access_token") && truthy (prop tokens "refresh_token") = true →
  write_ok s = true →
  ∃ saved,
    (lookupUserToken userId
       (initial (user_tokens_file (exchangeCodeForToken (Some tokens) userId s).2)
                config writable)).1
    = Return (Some saved)
    ∧ prop saved k = prop tokens k.
Proof.
  intros Hc Hw.
  destruct (exchange_visible tokens userId s Hc) as (s' & -> & _ & _ & _ & Hfile).
  destruct (Hfile Hw) as (m & Hm & Hsaved). simpl.
  exists (json_object tokens). split; [|apply prop_json_object].
  rewrite lookupUserToken_visible. f_equal.
  unfold visible, initial, deref; simpl.
  rewrite map_size_empty, decide_False by lia. by rewrite Hm.
Qed.

Lemma exchangeCodeForToken_survives_restart_witness :
  ∃ saved,
    (lookupUserToken "42"
       (initial (user_tokens_file
                   (exchangeCodeForToken (Some Sample.fresh) "42"
                      (Sample.store Sample.stale true)).2)
                Missing false)).1
    = Return (Some saved)
    ∧ prop saved "refresh_token" = prop Sample.fresh "refresh_token".
Proof.
  apply (exchangeCodeForToken_survives_restart
           Sample.fresh "42" (Sample.store Sample.stale true) Missing false
           "refresh_token").
  - vm_compute. reflexivity.
  - reflexivity.
Defined.

(** X5. With nobody cached, no readable token file and a failing write,
    [exchangeCodeForToken] still answers [true], yet the tokens went into an
    object that is not the cache: the next lookup finds nobody. *)
Theorem exchangeCodeForToken_success_not_stored
        (tokens : gmap string JsVal) (userId : string) (s : State) :
  truthy (prop tokens "access_token") && truthy (prop tokens "refresh_token") = true →
  size (deref s (userTokensCache s)) = 0 →
  user_tokens_file s = Missing ∨ user_tokens_file s = Unreadable →
  write_ok s = false →
  (exchangeCodeForToken (Some tokens) userId s).1 = Return true
  ∧ (lookupUserToken userId (exchangeCodeForToken (Some tokens) userId s).2).1
    = Return None.
Proof.
  intros Hc Hz Hf Hw.
  destruct (exchange_visible tokens userId s Hc) as (s' & -> & _ & _ & Hlost & _).
  split; [done|]. rewrite lookupUserToken_visible. simpl. f_equal.
  apply Hlost. intros [Hk|[Hk|(m & Hk)]]; [congruence|lia|].
  destruct Hf; congruence.
Qed.

Lemma exchangeCodeForToken_success_not_stored_witness :
  (exchangeCodeForToken (Some Sample.fresh) "42" (initial Missing Missing false)).1
  = Return true
  ∧ (lookupUserToken "42"
       (exchangeCodeForToken (Some Sample.fresh) "42"
          (initial Missing Missing false)).2).1
    = Return None.
Proof.
  apply (exchangeCodeForToken_success_not_stored
           Sample.fresh "42" (initial Missing Missing false)).
  - vm_compute. reflexivity.
  - vm_compute. reflexivity.
  - left. reflexivity.
  - reflexivity.
Defined.

(** X6. An exchange for one user changes no other user's credential: what a
    lookup finds for anybody else is the same before and after, whatever
    the reply and whether or not the write succeeds. *)
Theorem exchangeCodeForToken_other_users
        (getToken : option (gmap string JsVal)) (userId other : string)
        (s : State) :
  other ≠ userId →
  (lookupUserToken other (exchangeCodeForToken getToken userId s).2).1
  = (lookupUserToken other s).1.
Proof.
  intros Hne. rewrite !lookupUserToken_visible. f_equal.
  destruct getToken as [tokens|].
  - destruct (complete tokens) eqn:Hc.
    + destruct (exchange_visible tokens userId s Hc) as (s' & -> & Hother & _).
      simpl. by apply Hother.
    + rewrite (exchange_refused (Some tokens) userId s Hc). by apply visible_ext.
  - rewrite (exchange_refused None userId s I). by apply visible_ext.
Qed.

Lemma exchangeCodeForToken_other_users_witness :
  (lookupUserToken "42"
     (exchangeCodeForToken (Some Sample.fresh) "7"
        (Sample.store Sample.stale false)).2).1
  = (lookupUserToken "42" (Sample.store Sample.stale false)).1.
Proof.
  apply (exchangeCodeForToken_other_users
           (Some Sample.fresh) "7" "42" (Sample.store Sample.stale false)).
  discriminate.
Defined.

(** *** Properties of the two caches *)

(** X7. Once a load has produced a mapping that holds somebody, the next
    load returns the same object without touching the file system; the
    state, call log included, stays as it is. *)
Theorem loadUserTokens_cached (s s1 : State) (l : nat) :
  loadUserTokens s = (Return l, s1) →
  0 < size (deref s1 l) →
  loadUserTokens s1 = (Return l, s1).
Proof.
  intros Hload Hpos.
  destruct (loadUserTokens_shape s)
    as (l' & s1' & Hload' & _ & _ & _ & _ & _ & Hcase).
  rewrite Hload in Hload'. injection Hload' as <- <-.
  destruct Hcase as [(Hw & -> & ->)|[(Hz & m & Hf & Hc & Hm)|(Hz & Hf & He & _)]].
  - by apply loadUserTokens_warm.
  - rewrite loadUserTokens_warm; rewrite Hc; done.
  - rewrite He, map_size_empty in Hpos. lia.
Qed.

Lemma loadUserTokens_cached_witness :
  loadUserTokens (loadUserTokens (Sample.store Sample.fresh true)).2
  = (Return 1, (loadUserTokens (Sample.store Sample.fresh true)).2).
Proof.
  apply (loadUserTokens_cached (Sample.store Sample.fresh true)).
  - vm_compute. reflexivity.
  - vm_compute. lia.
Defined.

(** X8. A mapping without users is never served from the cache: while the
    cached mapping is empty, every load goes back to the file system. *)
Theorem loadUserTokens_empty_rereads (s : State) :
  size (deref s (userTokensCache s)) = 0 →
  ∃ rest,
    calls (loadUserTokens s).2 = calls s ++ ExistsSync USER_TOKENS_PATH :: rest.
Proof.
  intros Hz. rewrite loadUserTokens_cold by done.
  destruct (user_tokens_file s); simpl; eauto.
Qed.

Lemma loadUserTokens_empty_rereads_witness :
  ∃ rest,
    calls (loadUserTokens (loadUserTokens (initial (Holds ∅) Missing true)).2).2
    = calls (loadUserTokens (initial (Holds ∅) Missing true)).2
      ++ ExistsSync USER_TOKENS_PATH :: rest.
Proof.
  apply (loadUserTokens_empty_rereads
           (loadUserTokens (initial (Holds ∅) Missing true)).2).
  vm_compute. reflexivity.
Defined.

(** X9. The client configuration is read at most once: after a successful
    [loadCredentials], later calls return the same configuration from the
    cache and make no call to the file system; a failed load caches
    nothing. *)
Theorem loadCredentials_cached (s : State) :
  match loadCredentials s with
  | (Return c, s1) => loadCredentials s1 = (Return c, s1)
  | (Throw _, s1) => credentialsCache s = None ∧ credentialsCache s1 = None
  end.
Proof.
  unfold loadCredentials, existsSync_credentials, read_credentials. run.
  destruct s as [h l [j|] f cf wo cl wt]; simpl; [done|].
  destruct cf as [| |j]; simpl; done.
Qed.

(** *** Properties of [getAuthenticatedClient] *)

(** Calls that only look at the file system. *)
Definition reads_only (cs : list Call) : Prop :=
  Forall (λ c, ∃ p, c = ExistsSync p ∨ c = ReadFileSync p) cs.

Lemma loadUserTokens_calls (s : State) :
  ∃ reads, calls (loadUserTokens s).2 = calls s ++ reads ∧ reads_only reads.
Proof.
  destruct (decide (0 < size (deref s (userTokensCache s)))) as [Hwarm|Hcold].
  - rewrite loadUserTokens_warm by done. exists []. simpl.
    rewrite app_nil_r. split; [done|apply Forall_nil_2].
  - rewrite loadUserTokens_cold by lia.
    destruct (user_tokens_file s); simpl; eexists; (split; [reflexivity|]);
      repeat first [apply Forall_cons_2 | apply Forall_nil_2]; eauto.
Qed.

Lemma createOAuth2Client_calls (s : State) :
  ∃ reads, calls (createOAuth2Client s).2 = calls s ++ reads ∧ reads_only reads.
Proof.
  unfold createOAuth2Client, loadCredentials, existsSync_credentials,
    read_credentials. run.
  destruct s as [h l [j|] f cf wo cl wt]; simpl.
  - exists []. rewrite app_nil_r.
    split; [by destruct (installed j), (web j)|apply Forall_nil_2].
  - destruct cf as [| |j]; simpl.
    + exists [ExistsSync CREDENTIALS_PATH]. split; [done|].
      repeat first [apply Forall_cons_2 | apply Forall_nil_2]; eauto.
    + exists [ExistsSync CREDENTIALS_PATH; ReadFileSync CREDENTIALS_PATH].
      rewrite <- app_assoc. split; [done|].
      repeat first [apply Forall_cons_2 | apply Forall_nil_2]; eauto.
    + exists [ExistsSync CREDENTIALS_PATH; ReadFileSync CREDENTIALS_PATH].
      rewrite <- app_assoc.
      split; [by destruct (installed j), (web j)|].
      repeat first [apply Forall_cons_2 | apply Forall_nil_2]; eauto.
Qed.

Lemma reads_only_app (a b : list Call) :
  reads_only a → reads_only b → reads_only (a ++ b).
Proof. intros Ha Hb. apply Forall_app. done. Qed.

(** The state after [getAuthenticatedClient], path by path. *)
Lemma getAuthenticatedClient_state (w : World) (userId : string) (s : State) :
  ∃ l s1,
    loadUserTokens s = (Return l, s1)
    ∧ match deref s1 l !! userId with
      | None => (getAuthenticatedClient w userId s).2 = s1
      | Some userToken =>
          ∃ o s2,
            createOAuth2Client s1 = (o, s2)
            ∧ match o with
              | Throw _ => (getAuthenticatedClient w userId s).2 = s2
              | Return _ =>
                  if near_expiry userToken (now w) then
                    ∃ f, (f = (λ m, delete userId m)
                          ∨ ∃ v, f = (λ m, <[userId := v]> m))
                         ∧ (getAuthenticatedClient w userId s).2
                           = (saveUserTokens l
                                (mutate l f
                                   (set_calls (calls s2 ++ [RefreshAccessToken]) s2))).2
                  else (getAuthenticatedClient w userId s).2 = s2
              end
      end.
Proof.
  destruct (loadUserTokens_returns s) as (l & s1 & Hload).
  exists l, s1. split; [done|].
  destruct (deref s1 l !! userId) as [userToken|] eqn:Hfound.
  - destruct (createOAuth2Client s1) as [[c|e] s2] eqn:Hcfg; eexists _, s2;
      (split; [reflexivity|]); cbv beta iota.
    + rewrite (getAuthenticatedClient_found w userId s s1 s2 l userToken c
                 Hload Hfound Hcfg).
      destruct (near_expiry userToken (now w)); [|done].
      destruct (refreshAccessToken w userToken) as [credentials|]; simpl.
      * eexists. split; [right; eexists; reflexivity|done].
      * eexists. split; [left; reflexivity|done].
    + by rewrite (getAuthenticatedClient_config w userId s s1 s2 l userToken e
                    Hload Hfound Hcfg).
  - by rewrite (getAuthenticatedClient_absent w userId s s1 l Hload Hfound).
Qed.

Lemma saveUserTokens_calls (l : nat) (s : State) :
  calls (saveUserTokens l s).2 = calls s ++ [WriteFileSync USER_TOKENS_PATH]
  ∧ heap (saveUserTokens l s).2 = heap s.
Proof.
  destruct (write_ok s) eqn:Hw.
  - by rewrite saveUserTokens_written.
  - by rewrite saveUserTokens_failed.
Qed.

(** X10. One call of [getAuthenticatedClient] reads files and then either
    does nothing more, or asks the server for a refresh exactly once and
    writes the token file exactly once after it: a refresh is never retried
    and the file is never written without a refresh. *)
Theorem getAuthenticatedClient_calls (w : World) (userId : string) (s : State) :
  ∃ reads,
    reads_only reads
    ∧ (calls (getAuthenticatedClient w userId s).2 = calls s ++ reads
       ∨ calls (getAuthenticatedClient w userId s).2
         = calls s ++ reads ++ [RefreshAccessToken; WriteFileSync USER_TOKENS_PATH]).
Proof.
  destruct (getAuthenticatedClient_state w userId s) as (l & s1 & Hload & Hrest).
  destruct (loadUserTokens_calls s) as (r1 & Hc1 & Hr1).
  rewrite Hload in Hc1. simpl in Hc1.
  destruct (deref s1 l !! userId) as [userToken|].
  - destruct Hrest as (o & s2 & Hcfg & Hrest).
    destruct (createOAuth2Client_calls s1) as (r2 & Hc2 & Hr2).
    rewrite Hcfg in Hc2. simpl in Hc2.
    exists (r1 ++ r2). split; [by apply reads_only_app|].
    assert (calls s2 = calls s ++ r1 ++ r2) as Hc12
      by (by rewrite Hc2, Hc1, app_assoc).
    destruct o as [c|e]; [|left; by rewrite Hrest].
    destruct (near_expiry userToken (now w)); [|left; by rewrite Hrest].
    destruct Hrest as (f & _ & ->). right.
    destruct (saveUserTokens_calls l
                (mutate l f (set_calls (calls s2 ++ [RefreshAccessToken]) s2)))
      as [-> _].
    simpl. rewrite Hc12, <- !app_assoc. done.
  - exists r1. split; [done|]. left. by rewrite Hrest.
Qed.

(** X11. When no refresh is needed (nobody is stored under the user id, or
    the stored credential is not within the buffer), the call only reads:
    no call to the server, no write, and the token file and the cached
    mapping are as the lookup left them. *)
Theorem getAuthenticatedClient_no_refresh_no_change
        (w : World) (userId : string) (s s1 : State)
        (stored : option (gmap string JsVal)) :
  lookupUserToken userId s = (Return stored, s1) →
  match stored with
  | Some userToken => near_expiry userToken (now w) = false
  | None => True
  end →
  let s' := (getAuthenticatedClient w userId s).2 in
  heap s' = heap s1
  ∧ userTokensCache s' = userTokensCache s1
  ∧ user_tokens_file s' = user_tokens_file s
  ∧ ∃ reads, reads_only reads ∧ calls s' = calls s ++ reads.
Proof.
  intros Hlook Hcur s'. unfold s'. clear s'.
  destruct (lookupUserToken_load userId s) as (l & s1' & Hload & Hlook').
  rewrite Hlook in Hlook'. injection Hlook' as -> <-.
  destruct (getAuthenticatedClient_state w userId s) as (l' & s1' & Hload' & Hrest).
  rewrite Hload in Hload'. injection Hload' as <- <-.
  destruct (loadUserTokens_shape s)
    as (l' & s1' & Hload' & _ & _ & Hfile & _).
  rewrite Hload in Hload'. injection Hload' as <- <-.
  destruct (loadUserTokens_calls s) as (r1 & Hc1 & Hr1).
  rewrite Hload in Hc1. simpl in Hc1.
  destruct (deref s1 l !! userId) as [userToken|].
  - destruct Hrest as (o & s2 & Hcfg & Hrest).
    destruct (createOAuth2Client_frame s1 s2 o Hcfg) as (Hh & Hc & Hf & _).
    destruct (createOAuth2Client_calls s1) as (r2 & Hc2 & Hr2).
    rewrite Hcfg in Hc2. simpl in Hc2.
    rewrite Hcur in Hrest.
    assert ((getAuthenticatedClient w userId s).2 = s2) as ->
      by (by destruct o).
    repeat split; try congruence.
    exists (r1 ++ r2). split; [by apply reads_only_app|].
    by rewrite Hc2, Hc1, app_assoc.
  - rewrite Hrest. repeat split; try done. eauto.
Qed.

Lemma getAuthenticatedClient_no_refresh_no_change_witness :
  heap (getAuthenticatedClient Sample.granting "42" (Sample.store Sample.fresh true)).2
  = heap (lookupUserToken "42" (Sample.store Sample.fresh true)).2
  ∧ userTokensCache
      (getAuthenticatedClient Sample.granting "42" (Sample.store Sample.fresh true)).2
    = userTokensCache (lookupUserToken "42" (Sample.store Sample.fresh true)).2
  ∧ user_tokens_file
      (getAuthenticatedClient Sample.granting "42" (Sample.store Sample.fresh true)).2
    = user_tokens_file (Sample.store Sample.fresh true)
  ∧ ∃ reads,
      reads_only reads
      ∧ calls (getAuthenticatedClient Sample.granting "42"
                 (Sample.store Sample.fresh true)).2
        = calls (Sample.store Sample.fresh true) ++ reads.
Proof.
  apply (getAuthenticatedClient_no_refresh_no_change
           Sample.granting "42" (Sample.store Sample.fresh true)
           (lookupUserToken "42" (Sample.store Sample.fresh true)).2
           (Some Sample.fresh)).
  - vm_compute. reflexivity.
  - vm_compute. reflexivity.
Defined.

(** X12. Whatever [getAuthenticatedClient] does for one user (nothing, a
    refresh that updates the entry, a failed refresh that deletes it), the
    entries of all other users in the cached mapping stay as they are. *)
Theorem getAuthenticatedClient_other_users
        (w : World) (userId other : string) (s s1 : State)
        (stored : option (gmap string JsVal)) :
  lookupUserToken userId s = (Return stored, s1) →
  other ≠ userId →
  let s' := (getAuthenticatedClient w userId s).2 in
  match stored with
  | Some _ => deref s' (userTokensCache s') !! other
              = deref s1 (userTokensCache s1) !! other
  | None => s' = s1
  end.
Proof.
  intros Hlook Hne s'. unfold s'. clear s'.
  destruct (lookupUserToken_load userId s) as (l & s1' & Hload & Hlook').
  rewrite Hlook in Hlook'. injection Hlook' as -> <-.
  destruct (getAuthenticatedClient_state w userId s) as (l' & s1' & Hload' & Hrest).
  rewrite Hload in Hload'. injection Hload' as <- <-.
  destruct (deref s1 l !! userId) as [userToken|] eqn:Hfound; [|done].
  destruct (loadUserTokens_found s s1 l userId userToken Hload Hfound)
    as (Hcache & Hlen & _).
  destruct Hrest as (o & s2 & Hcfg & Hrest).
  destruct (createOAuth2Client_frame s1 s2 o Hcfg) as (Hh & Hc & _ & _).
  assert (Hsame : (getAuthenticatedClient w userId s).2 = s2 →
            deref (getAuthenticatedClient w userId s).2
                  (userTokensCache (getAuthenticatedClient w userId s).2) !! other
            = deref s1 (userTokensCache s1) !! other).
  { intros ->. by rewrite Hc, (deref_heap s1 s2). }
  destruct o as [c|e]; [|by apply Hsame].
  destruct (near_expiry userToken (now w)); [|by apply Hsame].
  destruct Hrest as (f & Hf & ->).
  set (s3 := mutate l f _).
  assert (Hd3 : deref s3 l !! other = deref s1 l !! other).
  { unfold s3. rewrite deref_mutate by (simpl; congruence).
    rewrite (deref_heap s1 (set_calls _ s2)) by done.
    destruct Hf as [->|(v & ->)].
    - by rewrite lookup_delete_ne.
    - by rewrite lookup_insert_ne. }
  rewrite Hcache.
  destruct (write_ok s3) eqn:Hw3.
  - rewrite (saveUserTokens_written l s3 Hw3). simpl.
    by rewrite (deref_heap s3).
  - rewrite (saveUserTokens_failed l s3 Hw3). simpl.
    replace (userTokensCache s2) with l by congruence.
    by rewrite (deref_heap s3).
Qed.

Lemma getAuthenticatedClient_other_users_witness :
  deref (getAuthenticatedClient Sample.rejecting "42" Sample.two_users).2
        (userTokensCache
           (getAuthenticatedClient Sample.rejecting "42" Sample.two_users).2)
    !! "7"
  = deref (lookupUserToken "42" Sample.two_users).2
          (userTokensCache (lookupUserToken "42" Sample.two_users).2) !! "7".
Proof.
  apply (getAuthenticatedClient_other_users
           Sample.rejecting "42" "7" Sample.two_users
           (lookupUserToken "42" Sample.two_users).2 (Some Sample.stale)).
  - vm_compute. reflexivity.
  - discriminate.
Defined.

(** X13. After a successful refresh, a field the reply does carry replaces
    the stored one: the client and the cached mapping hold the reply's
    value. *)
Theorem refresh_overrides_present_fields
        (w : World) (userId : string) (s s1 s2 : State)
        (userToken credentials : gmap string JsVal) (c : OAuth2Client)
        (k : string) (v : JsVal) :
  lookupUserToken userId s = (Return (Some userToken), s1) →
  createOAuth2Client s1 = (Return c, s2) →
  near_expiry userToken (now w) = true →
  refreshAccessToken w userToken = Some credentials →
  credentials !! k = Some v →
  ∃ client s',
    getAuthenticatedClient w userId s = (Return (Some client), s')
    ∧ oa_credentials client !! k = Some v
    ∧ deref s' (userTokensCache s') !! userId = Some (oa_credentials client).
Proof.
  intros Hlook Hcfg Hnear Hrefresh Hk.
  destruct (lookupUserToken_load userId s) as (l & s1' & Hload & Hlook').
  rewrite Hlook in Hlook'. injection Hlook' as Hfound <-. symmetry in Hfound.
  destruct (loadUserTokens_found s s1 l userId userToken Hload Hfound)
    as (Hcache & Hlen & Hw1).
  destruct (createOAuth2Client_frame s1 s2 _ Hcfg) as (Hh & Hc & Hf & Hw2).
  rewrite (getAuthenticatedClient_found w userId s s1 s2 l userToken c
             Hload Hfound Hcfg), Hnear, Hrefresh. simpl.
  eexists _, _. split; [reflexivity|]. simpl.
  split; [unfold spread; by rewrite lookup_union_l'|].
  set (s3 := mutate l _ _).
  assert (Hd3 : deref s3 l !! userId = Some (spread userToken credentials)).
  { unfold s3. rewrite deref_mutate by (simpl; congruence).
    by rewrite lookup_insert_eq. }
  destruct (write_ok s3) eqn:Hw3.
  - rewrite (saveUserTokens_written l s3 Hw3). simpl. by rewrite (deref_heap s3).
  - rewrite (saveUserTokens_failed l s3 Hw3). simpl.
    replace (userTokensCache s2) with l by congruence.
    by rewrite (deref_heap s3).
Qed.

Lemma refresh_overrides_present_fields_witness :
  ∃ client s',
    getAuthenticatedClient Sample.granting "42" (Sample.store Sample.stale true)
    = (Return (Some client), s')
    ∧ oa_credentials client !! "access_token" = Some (JStr "new-access")
    ∧ deref s' (userTokensCache s') !! "42" = Some (oa_credentials client).
Proof.
  apply (refresh_overrides_present_fields
           Sample.granting "42" (Sample.store Sample.stale true)
           (lookupUserToken "42" (Sample.store Sample.stale true)).2
           (createOAuth2Client
              (lookupUserToken "42" (Sample.store Sample.stale true)).2).2
           Sample.stale Sample.reissue (Sample.client ∅) "access_token"
           (JStr "new-access")).
  - vm_compute. reflexivity.
  - vm_compute. reflexivity.
  - vm_compute. reflexivity.
  - reflexivity.
  - vm_compute. reflexivity.
Defined.

End AuthMore.

(** * More on the availability search *)

Module AvailabilityMore.
Import Js GoogleAuth Availability AvailabilityProofs.
Local Open Scope Z_scope.

Section Loop.
Variable tz : TimeZone.
Variable endDateTime : Z.
Variables durationMs minStartHour' maxEndHour' : Q.
Variable busyTimes : list Slot.
Hypothesis minStartHour_min : (0 <= minStartHour')%Q.

Local Abbreviation iteration' :=
  (iteration tz endDateTime durationMs minStartHour' maxEndHour' busyTimes).
Local Abbreviation search' :=
  (search tz endDateTime durationMs minStartHour' maxEndHour' busyTimes
          minStartHour_min).

(** A pass that goes on has checked that the candidate slot ends within the
    range. *)
Lemma iteration_Next_fits (c c' : Z) (l l' : list Slot) :
  iteration' c l = Next c' l' → slotEnd durationMs c <= endDateTime.
Proof.
  unfold iteration.
  destruct (_ && _); [|discriminate].
  destruct (Z.gtb_spec (slotEnd durationMs c) endDateTime); [discriminate|]. lia.
Qed.

(** A pass keeps the slots it was given and adds at most the candidate. *)
Lemma iteration_Next_slots (c c' : Z) (l l' : list Slot) :
  iteration' c l = Next c' l' →
  c < c'
  ∧ (l' = l
     ∨ (l' = l ++ [mkSlot c (slotEnd durationMs c)] ∧ c' = c + 15 * 60 * 1000)).
Proof.
  intros E.
  destruct (iteration_cases tz endDateTime durationMs minStartHour' maxEndHour'
              busyTimes minStartHour_min c l)
    as [Ex|[[Ex Hlt]|[[Ex Hlt]|[(b & _ & Ex & Hlt)|(Ex & _)]]]];
    rewrite Ex in E; try discriminate; injection E as <- <-; auto.
  split; [lia|]. right. done.
Qed.

(** Slots between [from] and [endDateTime], a quarter of an hour apart. *)
Definition within (from : Z) (l : list Slot) : Prop :=
  Forall (λ S, from <= start S ∧ end_ S <= endDateTime) l.

Definition spaced (l : list Slot) : Prop :=
  ∀ (i : nat) (S T : Slot),
    l !! i = Some S → l !! (i + 1)%nat = Some T →
    start S + 15 * 60 * 1000 <= start T.

Lemma spaced_snoc (l : list Slot) (x : Slot) :
  spaced l → Forall (λ S, start S + 15 * 60 * 1000 <= start x) l →
  spaced (l ++ [x]).
Proof.
  intros Hl Hx i S T HS HT.
  destruct (decide (i + 1 < length l)%nat) as [Hlt|Hge].
  - rewrite lookup_app_l in HS, HT by lia. eauto.
  - assert (l !! i = Some S) as HS'.
    { apply lookup_lt_Some in HT. rewrite length_app in HT; simpl in HT.
      rewrite lookup_app_l in HS by lia. done. }
    rewrite lookup_app_r in HT by lia.
    destruct (i + 1 - length l)%nat eqn:E; simpl in HT; [|by destruct n].
    injection HT as <-.
    rewrite Forall_forall in Hx. apply Hx.
    apply list_elem_of_lookup. eauto.
Qed.

Definition range_invariant (from c : Z) (l : list Slot) : Prop :=
  from <= c ∧ within from l ∧ spaced l
  ∧ Forall (λ S, start S + 15 * 60 * 1000 <= c) l.

Lemma range_invariant_kept (from c c' : Z) (l l' : list Slot) :
  range_invariant from c l → iteration' c l = Next c' l' →
  range_invariant from c' l'.
Proof.
  intros (Hfrom & Hin & Hsp & Hbefore) E.
  pose proof (iteration_Next_fits _ _ _ _ E) as Hfit.
  destruct (iteration_Next_slots _ _ _ _ E) as [Hlt [->|[-> ->]]].
  - repeat split; [lia|done|done|].
    eapply Forall_impl; [exact Hbefore|]. simpl. intros; lia.
  - repeat split; [lia| | |].
    + apply Forall_app. split; [done|]. apply Forall_singleton. simpl. lia.
    + apply spaced_snoc; done.
    + apply Forall_app. split.
      * eapply Forall_impl; [exact Hbefore|]. simpl. intros; lia.
      * apply Forall_singleton. simpl. lia.
Qed.

Lemma search_range (from : Z) :
  within from (search' from []) ∧ spaced (search' from []).
Proof.
  destruct (search_invariant tz endDateTime durationMs minStartHour' maxEndHour'
              busyTimes minStartHour_min (range_invariant from))
    with (c := from) (l := @nil Slot) as (c' & _ & Hin & Hsp & _).
  - intros. eapply range_invariant_kept; eauto.
  - repeat split; [lia|apply Forall_nil_2| |apply Forall_nil_2].
    intros i S T HS. by rewrite lookup_nil in HS.
  - done.
Qed.



End Loop.

(** The order of the busy intervals does not matter to a pass. *)
Lemma maxBusyEnd_Permutation (busy busy' : list Slot) (c e : Z) :
  busy ≡ₚ busy' → maxBusyEnd busy c e = maxBusyEnd busy' c e.
Proof.
  unfold maxBusyEnd. intros Hp. generalize c at 2 4 as acc.
  induction Hp as [|x l l' _ IH|x y l|l l' l'' _ IH1 _ IH2]; intros acc; simpl.
  - done.
  - apply IH.
  - f_equal.
    destruct (overlapping c e x), (overlapping c e y); try done.
    destruct (Z.gtb_spec (end_ y) acc), (Z.gtb_spec (end_ x) acc);
      repeat match goal with
             | |- context [?a >? ?b] => destruct (Z.gtb_spec a b)
             end; lia.
  - by rewrite IH1.
Qed.

Lemma existsb_Permutation {A : Type} (f : A → bool) (l l' : list A) :
  l ≡ₚ l' → existsb f l = existsb f l'.
Proof.
  induction 1 as [|x l l' _ IH|x y l|l l' l'' _ IH1 _ IH2]; simpl.
  - done.
  - by rewrite IH.
  - destruct (f x), (f y); done.
  - by rewrite IH1.
Qed.

Lemma iteration_Permutation (tz : TimeZone) (endDateTime : Z)
      (durationMs minH maxH : Q)
      (busy busy' : list Slot) (c : Z) (l : list Slot) :
  busy ≡ₚ busy' →
  iteration tz endDateTime durationMs minH maxH busy c l
  = iteration tz endDateTime durationMs minH maxH busy' c l.
Proof.
  intros Hp. unfold iteration.
  by rewrite (existsb_Permutation _ _ _ Hp), (maxBusyEnd_Permutation _ _ _ _ Hp).
Qed.

Lemma search_Permutation (tz : TimeZone) (endDateTime : Z)
      (durationMs minH maxH : Q)
      (busy busy' : list Slot) (Hmin : (0 <= minH)%Q) (c : Z) (l : list Slot) :
  busy ≡ₚ busy' →
  search tz endDateTime durationMs minH maxH busy Hmin c l
  = search tz endDateTime durationMs minH maxH busy' Hmin c l.
Proof.
  intros Hp.
  funelim (search tz endDateTime durationMs minH maxH busy Hmin c l).
  - rewrite search_unfold.
    match goal with E : iteration _ _ _ _ _ _ _ _ = Exit |- _ =>
      rewrite <- (iteration_Permutation _ _ _ _ _ _ _ _ _ Hp); by rewrite E end.
  - rewrite (search_unfold _ _ _ _ _ busy').
    match goal with E : iteration _ _ _ _ _ _ _ _ = Next _ _ |- _ =>
      rewrite <- (iteration_Permutation _ _ _ _ _ _ _ _ _ Hp); rewrite E end.
    match goal with IH : ∀ b : list Slot, _ ≡ₚ b → _ |- _ => by apply IH end.
Qed.

(** The results of [execute], with all that the loop keeps. *)
Lemma execute_slots (w : World) (tz : TimeZone) (items : Outcome (option (list Event)))
      (context : Context) (valid : inputSchema context = true)
      (s s' : State) (slots : list Slot) :
  execute w tz items context valid s = (Return slots, s') →
  ∃ a b events,
    startDate context = Some a ∧ endDate context = Some b ∧ a < b
    ∧ items = Return events
    ∧ Forall (accepted tz (duration context * 60 * 1000)%Q
                       (default 9%Q (minStartHour context))
                       (default 17%Q (maxEndHour context))
                       (busyTimesOf (default [] events))) slots
    ∧ within b a slots
    ∧ spaced slots.
Proof.
  intros Hex.
  apply execute_Return in Hex as (a & b & events & Ha & Hb & Hab & -> & ->).
  exists a, b, events. repeat split; try done.
  - apply Forall_take.
    apply (search_result tz b (duration context * 60 * 1000)%Q
             (default 9%Q (minStartHour context)) (default 17%Q (maxEndHour context))
             (busyTimesOf (default [] events))
             (schema_minStartHour context valid) a).
  - apply Forall_take.
    apply (search_range tz b (duration context * 60 * 1000)%Q
             (default 9%Q (minStartHour context)) (default 17%Q (maxEndHour context))
             (busyTimesOf (default [] events))
             (schema_minStartHour context valid) a).
  - intros i S T HS HT.
    apply lookup_take_Some in HS as [HS _]. apply lookup_take_Some in HT as [HT _].
    eapply (search_range tz b (duration context * 60 * 1000)%Q
              (default 9%Q (minStartHour context)) (default 17%Q (maxEndHour context))
              (busyTimesOf (default [] events))
              (schema_minStartHour context valid) a); eauto.
Qed.

(** *** Properties of the slots offered *)

(** X14. When the requested duration is a whole number of minutes, every
    slot offered lasts exactly that many minutes. *)
Theorem slots_have_whole_requested_duration
        (w : World) (tz : TimeZone) (items : Outcome (option (list Event)))
        (context : Context) (valid : inputSchema context = true)
        (s s' : State) (slots : list Slot) (minutes : Z) :
  execute w tz items context valid s = (Return slots, s') →
  (duration context == inject_Z minutes)%Q →
  ∀ S, S ∈ slots → end_ S - start S = minutes * 60 * 1000.
Proof.
  intros Hex Hwhole S HS.
  apply execute_slots in Hex as (a & b & events & _ & _ & _ & _ & Hacc & _).
  rewrite Forall_forall in Hacc. destruct (Hacc S HS) as (Hend & _).
  rewrite Hend, (slotEnd_whole _ (minutes * 60 * 1000)); [lia|].
  rewrite !inject_Z_mult, Hwhole. reflexivity.
Qed.

Lemma slots_have_whole_requested_duration_witness :
  end_ (Sample.half_hour (Sample.at_ 11 0)) - start (Sample.half_hour (Sample.at_ 11 0))
  = 30 * 60 * 1000.
Proof.
  apply (slots_have_whole_requested_duration
           Sample.granting utc (Return (Some Sample.meetings))
           Sample.request eq_refl (Sample.store Sample.fresh true)
           (execute Sample.granting utc (Return (Some Sample.meetings))
              Sample.request eq_refl (Sample.store Sample.fresh true)).2
           Sample.offered 30).
  - vm_compute. reflexivity.
  - reflexivity.
  - apply list_elem_of_lookup. exists 3%nat. reflexivity.
Defined.

(** A duration of 2.00001 minutes is 120000.6 milliseconds; the [Date] of
    the slot's end drops the fraction, and the slot lasts 120000. *)
Lemma odd_duration_fraction_dropped :
  inputSchema Sample.odd_duration = true
  ∧ ∃ rest,
      (execute Sample.granting utc (Return (Some Sample.meetings))
               Sample.odd_duration eq_refl
               (Sample.store Sample.fresh true)).1
      = Return (mkSlot (Sample.at_ 9 0) (Sample.at_ 9 0 + 120000) :: rest).
Proof. vm_compute. split; [reflexivity|]. eexists. reflexivity. Qed.

(** X15. Every slot offered lies inside the requested range: it starts no
    earlier than the start date and ends no later than the end date. *)
Theorem slots_inside_requested_range
        (w : World) (tz : TimeZone) (items : Outcome (option (list Event)))
        (context : Context) (valid : inputSchema context = true)
        (s s' : State) (slots : list Slot) :
  execute w tz items context valid s = (Return slots, s') →
  ∃ a b,
    startDate context = Some a ∧ endDate context = Some b
    ∧ ∀ S, S ∈ slots → a <= start S ∧ end_ S <= b.
Proof.
  intros Hex.
  apply execute_slots in Hex as (a & b & events & Ha & Hb & _ & _ & _ & Hin & _).
  unfold within in Hin. rewrite Forall_forall in Hin.
  exists a, b. split; [done|]. split; [done|]. exact Hin.
Qed.

Lemma slots_inside_requested_range_witness :
  ∃ a b,
    startDate Sample.request = Some a ∧ endDate Sample.request = Some b
    ∧ ∀ S, S ∈ Sample.offered → a <= start S ∧ end_ S <= b.
Proof.
  apply (slots_inside_requested_range
           Sample.granting utc (Return (Some Sample.meetings))
           Sample.request eq_refl (Sample.store Sample.fresh true)
           (execute Sample.granting utc (Return (Some Sample.meetings))
              Sample.request eq_refl (Sample.store Sample.fresh true)).2).
  vm_compute. reflexivity.
Defined.

(** X16. Consecutive slots start at least a quarter of an hour apart. *)
Theorem slots_quarter_hour_apart
        (w : World) (tz : TimeZone) (items : Outcome (option (list Event)))
        (context : Context) (valid : inputSchema context = true)
        (s s' : State) (slots : list Slot) :
  execute w tz items context valid s = (Return slots, s') →
  ∀ (i : nat) (S T : Slot),
    slots !! i = Some S → slots !! (i + 1)%nat = Some T →
    start S + 15 * 60 * 1000 <= start T.
Proof.
  intros Hex.
  apply execute_slots in Hex as (a & b & events & _ & _ & _ & _ & _ & _ & Hsp).
  exact Hsp.
Qed.

Lemma slots_quarter_hour_apart_witness :
  start (Sample.half_hour (Sample.at_ 9 30)) + 15 * 60 * 1000
  <= start (Sample.half_hour (Sample.at_ 11 0)).
Proof.
  apply (slots_quarter_hour_apart
           Sample.granting utc (Return (Some Sample.meetings))
           Sample.request eq_refl (Sample.store Sample.fresh true)
           (execute Sample.granting utc (Return (Some Sample.meetings))
              Sample.request eq_refl (Sample.store Sample.fresh true)).2
           Sample.offered eq_refl 2%nat); reflexivity.
Defined.

(** X17. When one event covers the whole requested range, no slot is
    offered. *)
Theorem covering_event_no_slots
        (w : World) (tz : TimeZone) (events : option (list Event))
        (context : Context) (valid : inputSchema context = true)
        (s s' : State) (slots : list Slot) (a b : Z) (B : Slot) :
  execute w tz (Return events) context valid s = (Return slots, s') →
  startDate context = Some a → endDate context = Some b →
  B ∈ busyTimesOf (default [] events) →
  start B <= a → b <= end_ B →
  slots = [].
Proof.
  intros Hex Ha Hb HB Hsa Hbe.
  apply execute_slots in Hex
    as (a' & b' & events' & Ha' & Hb' & _ & Hev & Hacc & Hin & _).
  injection Hev as <-.
  rewrite Ha in Ha'. injection Ha' as <-. rewrite Hb in Hb'. injection Hb' as <-.
  destruct slots as [|S rest]; [done|exfalso].
  apply Forall_cons in Hacc as [(Hend & _ & _ & Hfree) _].
  unfold within in Hin. apply Forall_cons in Hin as [[Hs He] _].
  pose proof (slotEnd_after _ (start S) (schema_durationMs context valid)).
  rewrite Forall_forall in Hfree. specialize (Hfree B HB).
  unfold overlapping in Hfree. apply andb_false_iff in Hfree as [Hf|Hf].
  - apply Z.ltb_ge in Hf. lia.
  - rewrite Z.gtb_ltb in Hf. apply Z.ltb_ge in Hf. lia.
Qed.

Lemma covering_event_no_slots_witness : @nil Slot = [].
Proof.
  apply (covering_event_no_slots
           Sample.granting utc (Some Sample.day_long) Sample.request eq_refl
           (Sample.store Sample.fresh true)
           (execute Sample.granting utc (Return (Some Sample.day_long))
              Sample.request eq_refl (Sample.store Sample.fresh true)).2
           [] Sample.midnight (Sample.at_ 24 0)
           (mkSlot Sample.midnight (Sample.at_ 24 0))).
  - vm_compute. reflexivity.
  - reflexivity.
  - reflexivity.
  - apply list_elem_of_lookup. exists 0%nat. reflexivity.
  - vm_compute. discriminate.
  - vm_compute. discriminate.
Defined.



(** With the maximum hour at 17.5 the day's window ends at 17:00: asked from
    17:00 on, on a day without events, the tool offers nothing, the half
    hour from 17:00 included. *)
Lemma half_hour_after_whole_maximum_not_offered :
  inputSchema Sample.until_half_past_five = true
  ∧ (execute Sample.granting utc (Return (Some []))
             Sample.until_half_past_five eq_refl
             (Sample.store Sample.fresh true)).1
    = Return [].
Proof. vm_compute. split; reflexivity. Qed.

(** X19. The answer does not depend on the order in which the calendar
    lists the events. *)
Theorem event_order_irrelevant
        (w : World) (tz : TimeZone) (events events' : list Event)
        (context : Context) (valid : inputSchema context = true) (s : State) :
  events ≡ₚ events' →
  execute w tz (Return (Some events)) context valid s
  = execute w tz (Return (Some events')) context valid s.
Proof.
  intros Hp. unfold execute. simpl.
  destruct (startDate context) as [a|]; [|done].
  destruct (endDate context) as [b|]; [|done].
  assert (busyTimesOf events ≡ₚ busyTimesOf events') as Hb
    by (unfold busyTimesOf; by rewrite Hp).
  by rewrite (search_Permutation tz b (duration context * 60 * 1000)%Q
                (default 9%Q (minStartHour context))
                (default 17%Q (maxEndHour context))
                _ _ (schema_minStartHour context valid) a [] Hb).
Qed.

Lemma event_order_irrelevant_witness :
  execute Sample.granting utc (Return (Some Sample.meetings))
          Sample.request eq_refl (Sample.store Sample.fresh true)
  = execute Sample.granting utc (Return (Some (reverse Sample.meetings)))
            Sample.request eq_refl (Sample.store Sample.fresh true).
Proof.
  apply (event_order_irrelevant Sample.granting utc Sample.meetings
           (reverse Sample.meetings) Sample.request eq_refl
           (Sample.store Sample.fresh true)).
  symmetry. apply reverse_Permutation.
Defined.

(** X20. When [getAuthenticatedClient] gives no client (nobody stored under
    the user id, or a failed refresh), [execute] throws the error "Google
    Authentication required. Please use /connect_google." itself, not
    wrapped, and the calendar is not called. *)
Theorem no_client_authentication_required
        (w : World) (tz : TimeZone) (items : Outcome (option (list Event)))
        (context : Context) (valid : inputSchema context = true)
        (s s1 : State) (a b : Z) :
  userId context ≠ "" →
  startDate context = Some a → endDate context = Some b → a < b →
  getAuthenticatedClient w (userId context) s = (Return None, s1) →
  execute w tz items context valid s
  = (Throw (Error "Google Authentication required. Please use /connect_google."),
     s1).
Proof.
  intros Hid Ha Hb Hab Hnone. unfold execute.
  rewrite (proj2 (String.eqb_neq _ _) Hid), Ha, Hb.
  destruct (Z.leb_spec b a); [lia|].
  unfold getCalendarService. run. rewrite Hnone. reflexivity.
Qed.

Lemma no_client_authentication_required_witness :
  execute Sample.rejecting utc (Return (Some Sample.meetings))
          Sample.request eq_refl (Sample.store Sample.stale true)
  = (Throw (Error "Google Authentication required. Please use /connect_google."),
     (getAuthenticatedClient Sample.rejecting "42"
        (Sample.store Sample.stale true)).2).
Proof.
  apply (no_client_authentication_required
           Sample.rejecting utc (Return (Some Sample.meetings)) Sample.request
           eq_refl (Sample.store Sample.stale true)
           (getAuthenticatedClient Sample.rejecting "42"
              (Sample.store Sample.stale true)).2
           Sample.midnight (Sample.at_ 24 0)).
  - discriminate.
  - reflexivity.
  - reflexivity.
  - vm_compute. reflexivity.
  - vm_compute. reflexivity.
Defined.

End AvailabilityMore.

(** * The dates of a new calendar event *)

Module CalendarEventsProofs.
Import GoogleAuth Availability CalendarEvents.
Local Open Scope Z_scope.

Lemma isoDate_dateInstant (date : Z) : isoDate (dateInstant date) = date.
Proof. unfold isoDate, dateInstant, msPerDay, msPerHour. apply Z.div_mul. lia. Qed.

Lemma isoDate_le (t t' : Z) : t <= t' → isoDate t <= isoDate t'.
Proof.
  unfold isoDate, msPerDay, msPerHour. intros H. apply Z.div_le_mono; lia.
Qed.

(** X21. An all-day event is never sent with an end date before its start
    date. The start is the UTC day of the given start. The end is the UTC
    day of the given end when that is later; otherwise it is the UTC day of
    the instant one local calendar day after the start date's midnight UTC,
    which is after the start date whenever that local day lasts 24 hours
    or more, and may be the start date itself when clocks are set forward
    that day. *)
Theorem all_day_end_not_before_start (tz : TimeZone) (rawStart rawEnd : Z) :
  ∃ startDate endDate,
    eventTimes tz true (Some rawStart) (Some rawEnd)
    = Return (OnDate startDate, OnDate endDate)
    ∧ startDate = isoDate rawStart
    ∧ startDate <= endDate
    ∧ (isoDate rawStart < isoDate rawEnd → endDate = isoDate rawEnd)
    ∧ (isoDate rawEnd <= isoDate rawStart →
       endDate = isoDate (nextDate tz (dateInstant startDate))
       ∧ (dateInstant startDate + msPerDay <= nextDate tz (dateInstant startDate) →
          startDate < endDate)).
Proof.
  unfold eventTimes.
  pose proof (nextDate_later tz (dateInstant (isoDate rawStart))) as Hlater.
  destruct (Z.leb_spec (dateInstant (isoDate rawEnd)) (dateInstant (isoDate rawStart)))
    as [Hle|Hlt]; eexists _, _; (split; [reflexivity|]); (split; [done|]).
  - assert (isoDate rawEnd <= isoDate rawStart) as Hdays
      by (unfold dateInstant, msPerDay, msPerHour in Hle; lia).
    split; [|split; [lia|]].
    + rewrite <- (isoDate_dateInstant (isoDate rawStart)) at 1.
      apply isoDate_le. lia.
    + intros _. split; [done|]. intros Hday.
      apply Z.lt_le_trans with (isoDate rawStart + 1); [lia|].
      rewrite <- (isoDate_dateInstant (isoDate rawStart + 1)).
      apply isoDate_le. unfold dateInstant in *. lia.
  - assert (isoDate rawStart < isoDate rawEnd) as Hdays
      by (unfold dateInstant, msPerDay, msPerHour in Hlt; lia).
    split; [lia|]. split; [done|]. lia.
Qed.

Lemma all_day_end_not_before_start_witness :
  ∃ startDate endDate,
    eventTimes utc true (Some Sample.midnight) (Some Sample.midnight)
    = Return (OnDate startDate, OnDate endDate)
    ∧ startDate = isoDate Sample.midnight
    ∧ startDate < endDate.
Proof.
  destruct (all_day_end_not_before_start utc Sample.midnight Sample.midnight)
    as (startDate & endDate & Htimes & Hstart & _ & _ & Hadjusted).
  exists startDate, endDate. split; [exact Htimes|]. split; [exact Hstart|].
  apply Hadjusted; [lia|]. subst startDate. vm_compute. discriminate.
Defined.

(** On the day the clocks go forward the local day after midnight UTC is
    23 hours long: an all-day event given for 2023-03-12 alone, in New
    York, is sent with that date as its start and as its end. *)
Lemma all_day_same_date_when_clocks_go_forward :
  eventTimes Sample.new_york true (Some Sample.march_12) (Some Sample.march_12)
  = Return (OnDate (isoDate Sample.march_12), OnDate (isoDate Sample.march_12))
  ∧ nextDate Sample.new_york Sample.march_12 = Sample.march_12 + 23 * msPerHour.
Proof. vm_compute. split; reflexivity. Qed.

(** X22. A start or end that is not a date is refused, all-day or not, with
    one and the same message, "Invalid start or end date format. Use full
    ISO 8601 format (e.g., YYYY-MM-DDTHH:mm:ssZ)."; the message thrown
    inside the block never gets out. When both are dates the block
    returns. *)
Theorem event_dates_refused
        (tz : TimeZone) (allDay : bool) (rawStart rawEnd : option Z) :
  match eventTimes tz allDay rawStart rawEnd with
  | Throw e => e = invalid_outer ∧ (rawStart = None ∨ rawEnd = None)
  | Return _ => is_Some rawStart ∧ is_Some rawEnd
  end.
Proof.
  unfold eventTimes.
  destruct allDay, rawStart as [a|], rawEnd as [b|]; simpl;
    try (destruct (_ <=? _)); simpl; eauto.
Qed.

End CalendarEventsProofs.

(** * The routing of incoming messages *)

Module TelegramProofs.
Import Js GoogleAuth Telegram AuthProofs AuthMore.

Ltac route :=
  unfold mbind, mret, B_bind, B_ret, catch, lift, sendMessage, awaiting_add,
         awaiting_delete, userAgents_set, get_bot in *; simpl in *.

(** Only the three agent keys the bot itself writes are in [userAgents]. *)
Definition known_agents (b : Bot) : Prop :=
  ∀ c k, userAgents b !! c = Some k →
         k = "gmailAgent" ∨ k = "googleCalendarAgent" ∨ k = "emailCalendarAgent".

Lemma requiresGoogle_known (b : Bot) (c : Z) :
  known_agents b → requiresGoogle (currentAgentKey b c) = true.
Proof.
  intros Hk. unfold currentAgentKey.
  destruct (userAgents b !! c) as [k|] eqn:E; [|done].
  destruct (Hk c k E) as [->|[->| ->]]; done.
Qed.

(** A command either returns from [handleMessage] or leaves the bot as it
    was. *)
Lemma command_cases (n : Net) (c : Z) (t : string) (b : Bot) :
  match command n c t b with
  | (Return None, b') => b' = b
  | (Return (Some routed), _) => routed = CommandHandled
  | (Throw _, _) => True
  end.
Proof.
  unfold command, initiateGoogleAuth. route.
  destruct (String.prefix "/" t); [|done].
  repeat match goal with
         | |- context [String.eqb t ?c] => destruct (String.eqb t c)
         end;
    repeat match goal with
           | |- context [delivers ?n ?c ?m] => destruct (delivers n c m); simpl
           | |- context [createOAuth2Client ?s] =>
               destruct (createOAuth2Client s) as [[?|?] ?]; simpl
           end; done.
Qed.

(** X23. A text reaches an agent only after [getAuthenticatedClient] has
    returned a client for the sender: no message is handed to an agent on
    behalf of a user without a usable credential. *)
Theorem agent_only_with_client
        (n : Net) (msg : Message) (b b' : Bot) (agent t : string) :
  known_agents b →
  handleMessage n msg b = (Return (ToAgent agent t), b') →
  ∃ userId client,
    from msg = Some userId ∧ text msg = Some t
    ∧ getAuthenticatedClient (world n) userId (auth b)
      = (Return (Some client), auth b').
Proof.
  intros Hk. unfold handleMessage.
  destruct (from msg) as [userId|]; [|discriminate].
  destruct (String.eqb userId ""); [discriminate|].
  route.
  destruct (_ && _).
  { destruct (createOAuth2Client (auth b)) as [[cl|e] s1]; simpl; [|discriminate].
    destruct (exchangeCodeForToken _ userId s1) as [[[|]|e] s2]; simpl;
      try discriminate;
      match goal with |- context [delivers ?n ?c ?m] => destruct (delivers n c m) end;
      discriminate. }
  pose proof (command_cases n (chat msg) (default "" (text msg)) b) as Hcmd.
  destruct (command n (chat msg) (default "" (text msg)) b) as [[[r|]|e] b1];
    simpl; [subst r; discriminate| |discriminate].
  subst b1.
  destruct (String.eqb_spec (default "" (text msg)) "") as [|Hne]; [discriminate|].
  rewrite requiresGoogle_known by done.
  destruct (getAuthenticatedClient (world n) userId (auth b)) as [[[client|]|e] s1]
    eqn:Hget; simpl.
  - intros [= <- <- <-]. exists userId, client. split; [done|]. split; [|done].
    destruct (text msg); [done|]. by destruct Hne.
  - destruct (delivers n (chat msg) ConnectionNeeded); discriminate.
  - discriminate.
Qed.

Lemma known_started (s : State) : known_agents (started s).
Proof. intros c k H. simpl in H. by rewrite lookup_empty in H. Qed.

Lemma agent_only_with_client_witness :
  ∃ userId client,
    from Chat.question = Some userId
    ∧ text Chat.question = Some "what is on today?"
    ∧ getAuthenticatedClient (world Chat.net) userId
        (auth (started (Sample.store Sample.fresh true)))
      = (Return (Some client),
         auth (handleMessage Chat.net Chat.question
                 (started (Sample.store Sample.fresh true))).2).
Proof.
  apply (agent_only_with_client Chat.net Chat.question
           (started (Sample.store Sample.fresh true))
           (handleMessage Chat.net Chat.question
              (started (Sample.store Sample.fresh true))).2
           "gmailAgent").
  - apply known_started.
  - vm_compute. reflexivity.
Defined.

Lemma known_insert (b : Bot) (c : Z) (k : string) (s : State)
      (a : gset Z) (l : list (Z * Notice)) :
  known_agents b →
  k = "gmailAgent" ∨ k = "googleCalendarAgent" ∨ k = "emailCalendarAgent" →
  known_agents (mkBot s a (<[c := k]> (userAgents b)) l).
Proof.
  intros Hk Hin c' k'. simpl. rewrite lookup_insert.
  destruct (decide (c = c')); [by intros [= <-]|apply Hk].
Qed.

Lemma known_same (b : Bot) (s : State) (a : gset Z) (l : list (Z * Notice)) :
  known_agents b → known_agents (mkBot s a (userAgents b) l).
Proof. intros Hk c k. apply Hk. Qed.

(** X24. [userAgents] only ever holds the three agent keys: whatever the
    message and however its handling ends, a table that holds nothing else
    before holds nothing else after. *)
Theorem handleMessage_known_agents (n : Net) (msg : Message) (b : Bot) :
  known_agents b → known_agents (handleMessage n msg b).2.
Proof.
  intros Hk. unfold handleMessage.
  destruct (from msg) as [userId|]; [|done].
  destruct (String.eqb userId ""); [done|].
  route.
  destruct (_ && _).
  { destruct (createOAuth2Client (auth b)) as [[cl|e] s1]; simpl;
      [|by apply known_same].
    destruct (exchangeCodeForToken _ userId s1) as [[[|]|e] s2]; simpl;
      try (by apply known_same);
      match goal with |- context [delivers ?n ?c ?m] => destruct (delivers n c m) end;
      simpl; by apply known_same. }
  assert (Hcmd : known_agents (command n (chat msg) (default "" (text msg)) b).2).
  { unfold command, initiateGoogleAuth. route.
    destruct (String.prefix "/" _); [|done].
    repeat match goal with
           | |- context [String.eqb (default "" (text msg)) ?c] =>
               destruct (String.eqb (default "" (text msg)) c)
           end;
      repeat match goal with
             | |- context [delivers ?n ?c ?m] => destruct (delivers n c m); simpl
             | |- context [createOAuth2Client ?s] =>
                 destruct (createOAuth2Client s) as [[?|?] ?]; simpl
             end;
      first [done | by apply known_same | apply known_insert; auto]. }
  destruct (command n (chat msg) (default "" (text msg)) b) as [[[r|]|e] b1];
    simpl in *; try done.
  destruct (String.eqb _ ""); [done|].
  destruct (requiresGoogle _); [|done].
  destruct (getAuthenticatedClient (world n) userId (auth b1)) as [[[client|]|e] s1];
    simpl; try (by apply known_same).
  destruct (delivers n (chat msg) ConnectionNeeded); simpl; by apply known_same.
Qed.

Lemma handleMessage_known_agents_witness :
  known_agents
    (handleMessage Chat.net Chat.to_calendar
       (started (Sample.store Sample.fresh true))).2.
Proof.
  apply (handleMessage_known_agents Chat.net Chat.to_calendar
           (started (Sample.store Sample.fresh true))).
  intros c k H. vm_compute in H. discriminate.
Defined.

(** X25. While a chat is awaited for its authorization code, the next text
    of more than 20 characters from it is taken for the code: it is
    exchanged, never passed to an agent or read as a command, and the chat
    stops being awaited whether the exchange succeeds, fails or throws. *)
Theorem pasted_code_consumed
        (n : Net) (msg : Message) (b : Bot) (userId code : string) :
  from msg = Some userId → userId ≠ "" →
  text msg = Some code → 20 < String.length code →
  chat msg ∈ awaitingAuthCodeUsers b →
  (chat msg ∉ awaitingAuthCodeUsers (handleMessage n msg b).2)
  ∧ userAgents (handleMessage n msg b).2 = userAgents b
  ∧ match (handleMessage n msg b).1 with
    | Return routed =>
        ∃ tokens_ok,
          routed = CodeHandled tokens_ok
          ∧ tokens_ok
            = match getToken n code with
              | Some tokens => truthy (prop tokens "access_token")
                               && truthy (prop tokens "refresh_token")
              | None => false
              end
    | Throw _ => True
    end.
Proof.
  intros Hfrom Hid Htext Hlen Hawait. unfold handleMessage.
  rewrite Hfrom, (proj2 (String.eqb_neq _ _) Hid), Htext. route.
  rewrite bool_decide_eq_true_2 by done.
  assert (code ≠ "") as Hne by (intros ->; simpl in Hlen; lia).
  rewrite (proj2 (String.eqb_neq _ _) Hne).
  rewrite (proj2 (Nat.ltb_lt _ _) Hlen). simpl.
  assert (Hgone : ∀ a : gset Z, chat msg ∉ a ∖ {[chat msg]}).
  { intros a [_ Hn]%elem_of_difference. by apply Hn, elem_of_singleton. }
  destruct (createOAuth2Client (auth b)) as [[cl|e] s1]; simpl; [|by auto].
  pose proof (exchange_answer_of (getToken n code) userId s1) as Hans.
  destruct (exchangeCodeForToken (getToken n code) userId s1) as [o s2].
  simpl in Hans. subst o.
  destruct (match getToken n code with Some _ => _ | None => _ end) eqn:Hc;
    match goal with |- context [delivers ?n ?c ?m] => destruct (delivers n c m) end;
    simpl; repeat split; eauto.
Qed.

Lemma pasted_code_consumed_witness :
  (chat Chat.pasted ∉ awaitingAuthCodeUsers
                          (handleMessage Chat.net Chat.pasted Chat.awaited).2)
  ∧ userAgents (handleMessage Chat.net Chat.pasted Chat.awaited).2
    = userAgents Chat.awaited
  ∧ match (handleMessage Chat.net Chat.pasted Chat.awaited).1 with
    | Return routed =>
        ∃ tokens_ok,
          routed = CodeHandled tokens_ok
          ∧ tokens_ok
            = match getToken Chat.net "4/0AbCdEfGhIjKlMnOpQrStUvWxYz" with
              | Some tokens => truthy (prop tokens "access_token")
                               && truthy (prop tokens "refresh_token")
              | None => false
              end
    | Throw _ => True
    end.
Proof.
  apply (pasted_code_consumed Chat.net Chat.pasted Chat.awaited "42"
           "4/0AbCdEfGhIjKlMnOpQrStUvWxYz").
  - reflexivity.
  - discriminate.
  - reflexivity.
  - vm_compute. lia.
  - change (5%Z ∈ ({[ 5%Z ]} : gset Z)). by apply elem_of_singleton_2.
Defined.

(** X26. The commands /gmail, /calendar and /assistant select their agent
    before the confirmation is sent: afterwards the chat's active agent is
    the one named, also when Telegram refuses the confirmation. *)
Theorem command_selects_agent
        (n : Net) (msg : Message) (b : Bot) (userId cmd agent : string) :
  from msg = Some userId → userId ≠ "" →
  text msg = Some cmd →
  (cmd, agent) ∈ [ ("/gmail", "gmailAgent");
                   ("/calendar", "googleCalendarAgent");
                   ("/assistant", "emailCalendarAgent") ] →
  getActiveAgent (handleMessage n msg b).2 (chat msg) = agent
  ∧ awaitingAuthCodeUsers (handleMessage n msg b).2 = awaitingAuthCodeUsers b
  ∧ auth (handleMessage n msg b).2 = auth b.
Proof.
  intros Hfrom Hid Htext Hcmd. unfold handleMessage.
  rewrite Hfrom, (proj2 (String.eqb_neq _ _) Hid), Htext. route.
  assert (Hactive : ∀ s a l k,
            k = "gmailAgent" ∨ k = "googleCalendarAgent" ∨ k = "emailCalendarAgent" →
            getActiveAgent (mkBot s a (<[chat msg := k]> (userAgents b)) l) (chat msg)
            = k).
  { intros s a l k Hk. unfold getActiveAgent, currentAgentKey. simpl.
    rewrite lookup_insert_eq. by destruct Hk as [->|[->| ->]]. }
  rewrite !elem_of_cons in Hcmd. rewrite elem_of_nil in Hcmd.
  destruct Hcmd as [[= -> ->]|[[= -> ->]|[[= -> ->]|[]]]];
    rewrite andb_false_r; unfold command; route;
    match goal with |- context [delivers ?n ?c ?m] => destruct (delivers n c m) end;
    simpl; (split; [apply Hactive; auto|done]).
Qed.

Lemma command_selects_agent_witness :
  getActiveAgent (handleMessage Chat.net Chat.to_calendar
                    (started (Sample.store Sample.fresh true))).2
                 (chat Chat.to_calendar)
  = "googleCalendarAgent"
  ∧ awaitingAuthCodeUsers
      (handleMessage Chat.net Chat.to_calendar
         (started (Sample.store Sample.fresh true))).2
    = awaitingAuthCodeUsers (started (Sample.store Sample.fresh true))
  ∧ auth (handleMessage Chat.net Chat.to_calendar
            (started (Sample.store Sample.fresh true))).2
    = auth (started (Sample.store Sample.fresh true)).
Proof.
  apply (command_selects_agent Chat.net Chat.to_calendar
           (started (Sample.store Sample.fresh true)) "42" "/calendar").
  - reflexivity.
  - discriminate.
  - reflexivity.
  - apply list_elem_of_lookup. exists 1. reflexivity.
Defined.

Lemma createOAuth2Client_again (s s1 : State) (c : OAuth2Client) :
  createOAuth2Client s = (Return c, s1) → createOAuth2Client s1 = (Return c, s1).
Proof.
  unfold createOAuth2Client, loadCredentials, existsSync_credentials,
    read_credentials. run.
  destruct s as [h l [j|] f cf wo cl wt]; simpl.
  - destruct (installed j) eqn:Hi, (web j) eqn:Hw; intros [= <- <-]; simpl;
      by rewrite ?Hi, ?Hw.
  - destruct cf as [| |j]; simpl; try discriminate.
    destruct (installed j) eqn:Hi, (web j) eqn:Hw; intros [= <- <-]; simpl;
      by rewrite ?Hi, ?Hw.
Qed.

(** X27. Connecting, end to end: after /connect_google (the client
    configuration loads, Telegram delivers the instructions) the chat is
    awaited; when the user then pastes a code that the server exchanges for
    a complete token set, and the token file can be written, the bot
    answers that the account is connected, stops awaiting the chat, and the
    next lookup for the user finds exactly those tokens. *)
Theorem connect_then_code
        (n : Net) (b : Bot) (chatId : Z) (userId code : string)
        (tokens : gmap string JsVal) (cl : OAuth2Client) (s1 : State) :
  userId ≠ "" →
  createOAuth2Client (auth b) = (Return cl, s1) →
  delivers n chatId ConnectInstructions = true →
  delivers n chatId Connected = true →
  20 < String.length code →
  getToken n code = Some tokens →
  truthy (prop tokens "access_token") && truthy (prop tokens "refresh_token") = true →
  write_ok (auth b) = true →
  ∃ b1 b2,
    handleMessage n (mkMessage chatId (Some "/connect_google") (Some userId)) b
    = (Return CommandHandled, b1)
    ∧ chatId ∈ awaitingAuthCodeUsers b1
    ∧ handleMessage n (mkMessage chatId (Some code) (Some userId)) b1
      = (Return (CodeHandled true), b2)
    ∧ (chatId ∉ awaitingAuthCodeUsers b2)
    ∧ (lookupUserToken userId (auth b2)).1 = Return (Some tokens)
    ∧ sent b2 = sent b ++ [(chatId, ConnectInstructions); (chatId, Connected)].
Proof.
  intros Hid Hcfg Hd1 Hd2 Hlen Htok Hc Hw.
  destruct (createOAuth2Client_frame _ _ _ Hcfg) as (_ & _ & _ & Hw1).
  pose proof (createOAuth2Client_again _ _ _ Hcfg) as Hcfg1.
  destruct (exchange_visible tokens userId s1 Hc) as (s2 & Hex & _ & Hkept & _).
  assert (code ≠ "") as Hne by (intros ->; simpl in Hlen; lia).
  eexists _, _. split; [|split; [|split; [|split; [|split]]]].
  - unfold handleMessage, command, initiateGoogleAuth. simpl.
    rewrite (proj2 (String.eqb_neq _ _) Hid). route.
    rewrite andb_false_r. simpl. rewrite Hcfg. simpl. rewrite Hd1. reflexivity.
  - simpl. apply elem_of_union_l. by apply elem_of_singleton_2.
  - unfold handleMessage. simpl.
    rewrite (proj2 (String.eqb_neq _ _) Hid). route.
    rewrite bool_decide_eq_true_2
      by (apply elem_of_union_l; by apply elem_of_singleton_2).
    rewrite (proj2 (String.eqb_neq _ _) Hne), (proj2 (Nat.ltb_lt _ _) Hlen). simpl.
    rewrite Hcfg1. simpl. rewrite Htok, Hex. simpl. rewrite Hd2. reflexivity.
  - simpl. intros [_ Hn]%elem_of_difference. by apply Hn, elem_of_singleton_2.
  - simpl. rewrite lookupUserToken_visible. f_equal. apply Hkept. left. congruence.
  - simpl. by rewrite <- app_assoc.
Qed.

Lemma connect_then_code_witness :
  ∃ b1 b2,
    handleMessage Chat.server (mkMessage 5 (Some "/connect_google") (Some "42"))
                  (started (Sample.store Sample.stale true))
    = (Return CommandHandled, b1)
    ∧ 5%Z ∈ awaitingAuthCodeUsers b1
    ∧ handleMessage Chat.server Chat.pasted b1 = (Return (CodeHandled true), b2)
    ∧ (5%Z ∉ awaitingAuthCodeUsers b2)
    ∧ (lookupUserToken "42" (auth b2)).1 = Return (Some Sample.fresh)
    ∧ sent b2 = sent (started (Sample.store Sample.stale true))
                ++ [(5%Z, ConnectInstructions); (5%Z, Connected)].
Proof.
  apply (connect_then_code Chat.server (started (Sample.store Sample.stale true))
           5 "42" "4/0AbCdEfGhIjKlMnOpQrStUvWxYz" Sample.fresh
           (Sample.client ∅)
           (createOAuth2Client (Sample.store Sample.stale true)).2).
  - discriminate.
  - vm_compute. reflexivity.
  - reflexivity.
  - reflexivity.
  - vm_compute. lia.
  - reflexivity.
  - vm_compute. reflexivity.
  - reflexivity.
Defined.

(** *** [truncateString] *)

Lemma length_append (a b : string) :
  String.length (a +:+ b) = String.length a + String.length b.
Proof. induction a as [|c a IH]; simpl; [done|by rewrite IH]. Qed.

Lemma length_substring_0 (n : nat) (s : string) :
  n ≤ String.length s → String.length (String.substring 0 n s) = n.
Proof.
  revert s. induction n as [|n IH]; intros s H.
  - by destruct s.
  - destruct s as [|c s]; simpl in *; [lia|]. rewrite IH; lia.
Qed.

Lemma prefix_substring_0 (n : nat) (s : string) :
  String.prefix (String.substring 0 n s) s = true.
Proof.
  revert s. induction n as [|n IH]; intros s.
  - by destruct s.
  - destruct s as [|c s]; simpl; [done|].
    rewrite IH. by destruct (Ascii.ascii_dec c c).
Qed.

(** X28. [truncateString] returns a short string as it is; of a longer one
    it keeps the first [maxLength] code units and adds the 15 of the mark,
    so that the result is never longer than [maxLength + 15]. *)
Theorem truncateString_bounded (str : string) (maxLength : nat) :
  String.length (truncateString str maxLength) ≤ maxLength + 15
  ∧ (String.length str ≤ maxLength → truncateString str maxLength = str)
  ∧ (maxLength < String.length str →
     ∃ kept, truncateString str maxLength = kept +:+ "... [truncated]"
             ∧ String.length kept = maxLength
             ∧ String.prefix kept str = true).
Proof.
  unfold truncateString.
  destruct (Nat.leb_spec (String.length str) maxLength) as [Hle|Hlt].
  - split; [lia|]. split; [intros _; reflexivity|intros; lia].
  - rewrite length_append, length_substring_0 by lia. simpl.
    split; [lia|]. split; [intros; lia|]. intros _.
    exists (String.substring 0 maxLength str).
    repeat split; [apply length_substring_0; lia|apply prefix_substring_0].
Qed.

End TelegramProofs.
